(** * PDF outline extraction: heading and title inference

    A shallow embedding of [src/parser.py] (class [PDFParser1A]) and of the
    output validator of [src/main.py], with the properties of the heading and
    title inference engine stated and proved over it.

    Modelling conventions.
    - A Python [str] is a [string] whose characters are read as code points
      below 256; whitespace, case and digits follow Python's tables on that
      range.
    - A Python [float] is an exact rational ([Q]): rounding error, infinities
      and NaN of IEEE arithmetic are outside the model, except where the
      source can produce them from well-formed input (numpy's division by
      zero in the title scoring), where they are modelled explicitly.
    - A [dict] is an association list in insertion order; a [set] of strings
      is a [gset string].
    - An exception is a value [Raise e]; [try/except Exception] turns it into
      Python's [None], modelled by [option]. *)

From Stdlib Require Import QArith Qround Ascii String DecimalString Sorted.
From stdpp Require Import gmap strings list.
Close Scope Q_scope.
Local Open Scope string_scope.

(** ** Python text primitives *)

Module Text.

Definition cp (a : ascii) : N := N_of_ascii a.

Definition between (lo hi : N) (a : ascii) : bool :=
  ((lo <=? cp a) && (cp a <=? hi))%N.

(** [str.isspace] on one character: TAB..CR, FS..US, SPACE, NEL, NBSP. *)
Definition isspace (a : ascii) : bool :=
  between 9 13 a || between 28 32 a || (cp a =? 133)%N || (cp a =? 160)%N.

Definition isdigit (a : ascii) : bool := between 48 57 a.

(** Uppercase letters: A-Z and the Latin-1 capitals (without the
    multiplication sign). *)
Definition isupper_char (a : ascii) : bool :=
  between 65 90 a || between 192 214 a || between 216 222 a.

(** Lowercase letters: a-z, the Latin-1 small letters (without the division
    sign), and the three characters with the Lowercase property outside the
    letter blocks (feminine/masculine ordinal, micro sign). *)
Definition islower_char (a : ascii) : bool :=
  between 97 122 a || between 223 246 a || between 248 255 a
  || (cp a =? 170)%N || (cp a =? 181)%N || (cp a =? 186)%N.

(** The other case of a letter, when it has one below code point 256. *)
Definition swapcase (a : ascii) : ascii :=
  if between 65 90 a || between 192 214 a || between 216 222 a
  then ascii_of_N (cp a + 32)
  else if between 97 122 a || between 224 246 a || between 248 254 a
  then ascii_of_N (cp a - 32)
  else a.

Fixpoint lstrip (s : string) : string :=
  match s with
  | String a s' => if isspace a then lstrip s' else s
  | EmptyString => EmptyString
  end.

Fixpoint rev_append (s acc : string) : string :=
  match s with
  | String a s' => rev_append s' (String a acc)
  | EmptyString => acc
  end.

Definition rev (s : string) : string := rev_append s EmptyString.

Definition rstrip (s : string) : string := rev (lstrip (rev s)).

(** [s.strip()] *)
Definition strip (s : string) : string := rstrip (lstrip s).

(** [s.split()]: the maximal runs of non-whitespace characters.  [cur] is
    the word being read, reversed. *)
Fixpoint split_go (s cur : string) : list string :=
  match s with
  | EmptyString =>
      match cur with EmptyString => [] | _ => [rev cur] end
  | String a s' =>
      if isspace a
      then match cur with
           | EmptyString => split_go s' EmptyString
           | _ => rev cur :: split_go s' EmptyString
           end
      else split_go s' (String a cur)
  end.

Definition split (s : string) : list string := split_go s EmptyString.

(** [len(s)] *)
Definition len (s : string) : nat := String.length s.

(** [len(s.split())] *)
Definition word_count (s : string) : nat := length (split s).

(** [s[:n]] *)
Fixpoint take (n : nat) (s : string) : string :=
  match n, s with
  | S n', String a s' => String a (take n' s')
  | _, _ => EmptyString
  end.

Fixpoint last_char (s : string) : option ascii :=
  match s with
  | EmptyString => None
  | String a EmptyString => Some a
  | String _ s' => last_char s'
  end.

(** [s.endswith(c)] for a one-character suffix. *)
Definition endswith_char (c : ascii) (s : string) : bool :=
  match last_char s with
  | Some a => Ascii.eqb a c
  | None => false
  end.

(** [s[0].isupper()]; the source only evaluates it on non-empty text. *)
Definition first_isupper (s : string) : bool :=
  match s with
  | String a _ => isupper_char a
  | EmptyString => false
  end.

Fixpoint forallb_str (p : ascii -> bool) (s : string) : bool :=
  match s with
  | EmptyString => true
  | String a s' => p a && forallb_str p s'
  end.

Fixpoint existsb_str (p : ascii -> bool) (s : string) : bool :=
  match s with
  | EmptyString => false
  | String a s' => p a || existsb_str p s'
  end.

(** [s.isupper()]: no lowercase character and at least one uppercase one. *)
Definition isupper (s : string) : bool :=
  forallb_str (fun a => negb (islower_char a)) s && existsb_str isupper_char s.

(** [s.startswith(p)] *)
Fixpoint startswith (p s : string) : bool :=
  match p, s with
  | EmptyString, _ => true
  | String a p', String b s' => Ascii.eqb a b && startswith p' s'
  | String _ _, EmptyString => false
  end.

(** [s.replace(old, new)] for a non-empty [old]: occurrences are replaced
    left to right without overlap.  [skip] counts the characters of the
    occurrence just replaced that are still to be passed over. *)
Fixpoint replace_go (old new : string) (skip : nat) (s : string) : string :=
  match s with
  | EmptyString => EmptyString
  | String a s' =>
      match skip with
      | S k => replace_go old new k s'
      | O =>
          if startswith old s
          then new ++ replace_go old new (String.length old - 1) s'
          else String a (replace_go old new 0 s')
      end
  end.

Definition replace (old new s : string) : string := replace_go old new 0 s.

(** [os.path.basename(p)] on POSIX: what follows the last slash. *)
Fixpoint basename_go (s cur : string) : string :=
  match s with
  | EmptyString => rev cur
  | String a s' =>
      if Ascii.eqb a "/"%char then basename_go s' EmptyString
      else basename_go s' (String a cur)
  end.

Definition basename (p : string) : string := basename_go p EmptyString.

End Text.

(** ** Regular expressions, as far as the pattern bank uses them *)

Module Regex.

Inductive cset_item : Type :=
| CChar (a : ascii)            (* a literal character *)
| CRange (lo hi : ascii)       (* [lo-hi] *)
| CDigit                       (* \d *)
| CSpace.                      (* \s *)

Inductive regex : Type :=
| RNone                                        (* matches nothing *)
| REps                                         (* the empty string *)
| RSet (negated : bool) (items : list cset_item)  (* [...] or [^...] *)
| RSeq (r1 r2 : regex)
| RAlt (r1 r2 : regex)
| RStar (r : regex).

Definition RChar (a : ascii) : regex := RSet false [CChar a].
Definition RPlus (r : regex) : regex := RSeq r (RStar r).
Definition ROpt (r : regex) : regex := RAlt r REps.
Definition RDigit : regex := RSet false [CDigit].
Definition RSpace : regex := RSet false [CSpace].

Fixpoint RLit (s : string) : regex :=
  match s with
  | EmptyString => REps
  | String a EmptyString => RChar a
  | String a s' => RSeq (RChar a) (RLit s')
  end.

Fixpoint RSeqs (rs : list regex) : regex :=
  match rs with
  | [] => REps
  | [r] => r
  | r :: rs' => RSeq r (RSeqs rs')
  end.

(** A pattern as given to [re.match]: matching starts at the beginning of
    the text in any case (a leading [^] adds nothing), and [to_end] records
    a trailing [$].  The texts matched are stripped, so [$] can only hold at
    the very end. *)
Record pattern : Type := Pattern { body : regex; to_end : bool }.

Definition item_mem (it : cset_item) (a : ascii) : bool :=
  match it with
  | CChar c => Ascii.eqb a c
  | CRange lo hi => Text.between (Text.cp lo) (Text.cp hi) a
  | CDigit => Text.isdigit a
  | CSpace => Text.isspace a
  end.

(** With [re.IGNORECASE] a character is in a set when it or its other case
    is. *)
Definition set_mem (ignorecase negated : bool) (items : list cset_item)
           (a : ascii) : bool :=
  xorb negated
    (existsb (fun it => item_mem it a
                        || (ignorecase && item_mem it (Text.swapcase a)))
             items).

Fixpoint nullable (r : regex) : bool :=
  match r with
  | RNone => false
  | REps => true
  | RSet _ _ => false
  | RSeq r1 r2 => nullable r1 && nullable r2
  | RAlt r1 r2 => nullable r1 || nullable r2
  | RStar _ => true
  end.

(** Brzozowski derivative: what remains to be matched after reading [a]. *)
Fixpoint deriv (ic : bool) (a : ascii) (r : regex) : regex :=
  match r with
  | RNone => RNone
  | REps => RNone
  | RSet neg items => if set_mem ic neg items a then REps else RNone
  | RSeq r1 r2 =>
      if nullable r1
      then RAlt (RSeq (deriv ic a r1) r2) (deriv ic a r2)
      else RSeq (deriv ic a r1) r2
  | RAlt r1 r2 => RAlt (deriv ic a r1) (deriv ic a r2)
  | RStar r1 => RSeq (deriv ic a r1) (RStar r1)
  end.

(** The whole of [s] is in the language of [r]. *)
Fixpoint full_match (ic : bool) (r : regex) (s : string) : bool :=
  match s with
  | EmptyString => nullable r
  | String a s' => full_match ic (deriv ic a r) s'
  end.

(** Some prefix of [s] is in the language of [r]. *)
Fixpoint prefix_match (ic : bool) (r : regex) (s : string) : bool :=
  nullable r ||
  match s with
  | EmptyString => false
  | String a s' => prefix_match ic (deriv ic a r) s'
  end.

(** [bool(re.match(p, s, flags))] *)
Definition re_match (ic : bool) (p : pattern) (s : string) : bool :=
  if to_end p then full_match ic (body p) s
  else prefix_match ic (body p) s.

End Regex.

(** ** Python values the parser computes with *)

Module Py.

Inductive exn : Type :=
| ZeroDivisionError
| ValueError
| OverflowError.

(** The outcome of running code that may raise. *)
Inductive result (A : Type) : Type :=
| Ok (a : A)
| Raise (e : exn).
Arguments Ok {A} a.
Arguments Raise {A} e.

Definition bind {A B : Type} (m : result A) (k : A -> result B) : result B :=
  match m with
  | Ok a => k a
  | Raise e => Raise e
  end.

(** [try: ... except Exception: return None] *)
Definition catch {A : Type} (m : result (option A)) : option A :=
  match m with
  | Ok r => r
  | Raise _ => None
  end.

(** [a < b] on numbers. *)
Definition Qlt_bool (a b : Q) : bool := negb (Qle_bool b a).

(** [a / b] on Python floats. *)
Definition truediv (a b : Q) : result Q :=
  if Qeq_bool b 0 then Raise ZeroDivisionError else Ok (a / b)%Q.

(** Conversion of a Python [int] that counts something. *)
Definition of_nat (n : nat) : Q := inject_Z (Z.of_nat n).

(** Round a rational to the nearest integer, ties to the even one. *)
Definition round_half_even (x : Q) : Z :=
  let n := Qfloor x in
  let frac := (x - inject_Z n)%Q in
  if Qlt_bool frac (1 # 2) then n
  else if Qlt_bool (1 # 2) frac then (n + 1)%Z
  else if Z.even n then n else (n + 1)%Z.

(** [round(x, 1)] *)
Definition round1 (x : Q) : Q := (round_half_even (x * 10) # 10)%Q.

(** [a or b] on strings. *)
Definition str_or (a b : string) : string :=
  match a with
  | EmptyString => b
  | _ => a
  end.

(** [max(l, key=...)]: the first element that no other exceeds; [gt x cur]
    says that the key of [x] is greater than the key of [cur]. *)
Fixpoint max_from {A : Type} (gt : A -> A -> bool) (cur : A) (l : list A) : A :=
  match l with
  | [] => cur
  | x :: l' => max_from gt (if gt x cur then x else cur) l'
  end.

Definition max_by {A : Type} (gt : A -> A -> bool) (l : list A) : result A :=
  match l with
  | [] => Raise ValueError
  | x :: l' => Ok (max_from gt x l')
  end.

(** Stable sort; [before y x] says that [y] must come before [x] although
    [x] stood first.  [sorted(l, key=k)] has [before y x := k y < k x], and
    [sorted(l, key=k, reverse=True)] has [before y x := k x < k y]. *)
Fixpoint insert_sorted {A : Type} (before : A -> A -> bool) (x : A)
         (l : list A) : list A :=
  match l with
  | [] => [x]
  | y :: l' =>
      if before y x then y :: insert_sorted before x l' else x :: y :: l'
  end.

Definition sorted {A : Type} (before : A -> A -> bool) (l : list A) : list A :=
  List.fold_right (insert_sorted before) [] l.

(** *** Dictionaries keyed by a float, in insertion order *)

Definition dict (V : Type) : Type := list (Q * V).

(** [d.get(k)] *)
Fixpoint dict_get {V : Type} (k : Q) (d : dict V) : option V :=
  match d with
  | [] => None
  | (k', v) :: d' => if Qeq_bool k k' then Some v else dict_get k d'
  end.

(** [d[k] = v] *)
Fixpoint dict_set {V : Type} (k : Q) (v : V) (d : dict V) : dict V :=
  match d with
  | [] => [(k, v)]
  | (k', v') :: d' =>
      if Qeq_bool k k' then (k', v) :: d' else (k', v') :: dict_set k v d'
  end.

(** [d[k] = f(d[k])] on a [defaultdict] whose missing values are [dflt]. *)
Fixpoint dict_update {V : Type} (dflt : V) (k : Q) (f : V -> V)
         (d : dict V) : dict V :=
  match d with
  | [] => [(k, f dflt)]
  | (k', v') :: d' =>
      if Qeq_bool k k' then (k', f v') :: d'
      else (k', v') :: dict_update dflt k f d'
  end.

(** [Counter(l)] *)
Definition Counter (l : list Q) : dict nat :=
  List.fold_left (fun c k => dict_update 0 k S c) l [].

(** [Counter(l).most_common(1)[0][0]]; fails on an empty list, on which the
    source never calls it. *)
Definition most_common1 (l : list Q) : option Q :=
  match Counter l with
  | [] => None
  | kv :: c => Some (fst (max_from (fun x cur => (snd cur <? snd x)%nat) kv c))
  end.

(** *** numpy scalars

    numpy's division does not raise on a zero divisor: it yields an
    infinity or NaN, which then flows through the arithmetic. *)
Inductive npfloat : Type :=
| Fin (q : Q)
| PosInf
| NegInf
| NaN.

Definition np_truediv (a b : Q) : npfloat :=
  if Qeq_bool b 0 then
    if Qeq_bool a 0 then NaN
    else if Qlt_bool 0 a then PosInf else NegInf
  else Fin (a / b)%Q.

(** Product with a positive finite factor. *)
Definition np_scale (x : npfloat) (k : Q) : npfloat :=
  match x with
  | Fin q => Fin (q * k)%Q
  | other => other
  end.

(** Sum with a finite term. *)
Definition np_add (x : npfloat) (t : Q) : npfloat :=
  match x with
  | Fin q => Fin (q + t)%Q
  | other => other
  end.

(** [x > y] *)
Definition np_gt (x y : npfloat) : bool :=
  match x, y with
  | NaN, _ | _, NaN => false
  | PosInf, PosInf => false
  | PosInf, _ => true
  | _, PosInf => false
  | NegInf, _ => false
  | Fin _, NegInf => true
  | Fin a, Fin b => Qlt_bool b a
  end.

(** [np.mean(l)] of a non-empty list. *)
Definition np_mean (l : list Q) : Q :=
  (List.fold_left Qplus l 0 / of_nat (length l))%Q.

End Py.

Notation "'do' x <- m 'in' k" := (Py.bind m (fun x => k))
  (at level 10, x name, m at level 100, k at level 200).

(** ** The parser ([src/parser.py], class [PDFParser1A]) *)

Module PDFParser1A.
Import Regex Py.

(** *** What the layout extraction returns (pdfminer)

    A page is a sequence of elements; a text container carries its text,
    the vertical origin of its box and its children; a child that can be
    iterated is a line of character nodes, of which the glyphs ([LTChar])
    carry a size.  The font name and the vertical position of a glyph are
    copied by the statistics and never read, so they are left out. *)

Record LTChar : Type := { size : Q }.

Inductive char_node : Type :=
| Glyph (c : LTChar)          (* isinstance(char, LTChar) *)
| Anno.                       (* any other node of a line *)

Inductive line_node : Type :=
| Line (chars : list char_node)   (* hasattr(line, '__iter__') *)
| Leaf.

Inductive element : Type :=
| LTTextContainer (get_text : string) (y0 : Q) (lines : list line_node)
| LTOther.

Definition page : Type := list element.

(** *** What the parser returns *)

Inductive level : Type := H1 | H2 | H3.

Record entry : Type := { elevel : level; text : string; page_no : nat }.

Record record : Type := { title : string; outline : list entry }.

(** *** Heuristic pattern bank *)

Definition upper : regex := RSet false [CRange "A" "Z"].
Definition lower : regex := RSet false [CRange "a" "z"].

Definition heading_patterns : list pattern :=
  [ (* ^[A-Z][A-Z\s&-]+$ *)
    Pattern (RSeq upper
               (RPlus (RSet false [CRange "A" "Z"; CSpace; CChar "&"; CChar "-"])))
            true;
    (* ^\d+\.\s+[A-Z] *)
    Pattern (RSeqs [RPlus RDigit; RChar "."; RPlus RSpace; upper]) false;
    (* title case: ^[A-Z][a-z]+ G* :?$ with the group G = (?:\s+[A-Z][a-z]* ) *)
    Pattern (RSeqs [upper; RPlus lower;
                    RStar (RSeqs [RPlus RSpace; upper; RStar lower]);
                    ROpt (RChar ":")])
            true;
    (* ^[IVX]+\.\s+ *)
    Pattern (RSeqs [RPlus (RSet false [CChar "I"; CChar "V"; CChar "X"]);
                    RChar "."; RPlus RSpace])
            false;
    (* ^Chapter\s+\d+ *)
    Pattern (RSeqs [RLit "Chapter"; RPlus RSpace; RPlus RDigit]) false;
    (* ^Section\s+\d+ *)
    Pattern (RSeqs [RLit "Section"; RPlus RSpace; RPlus RDigit]) false ].

Definition exclusion_patterns : list pattern :=
  [ (* ^\d+$ *)
    Pattern (RPlus RDigit) true;
    (* ^page\s+\d+$ *)
    Pattern (RSeqs [RLit "page"; RPlus RSpace; RPlus RDigit]) true;
    (* ^www\. *)
    Pattern (RLit "www.") false;
    (* @ *)
    Pattern (RChar "@") false;
    (* ^\([^)]+\)$ *)
    Pattern (RSeqs [RChar "("; RPlus (RSet true [CChar ")"]); RChar ")"]) true ].

(** *** Font statistics *)

Record font_stat : Type :=
  { count : nat; positions : list nat; contexts : list string }.

Definition empty_stat : font_stat :=
  {| count := 0; positions := []; contexts := [] |}.

(** The glyphs of an element, in reading order. *)
Definition glyphs_of_line (l : line_node) : list LTChar :=
  match l with
  | Line chars =>
      List.flat_map (fun c => match c with Glyph g => [g] | Anno => [] end) chars
  | Leaf => []
  end.

Definition glyphs (lines : list line_node) : list LTChar :=
  List.flat_map glyphs_of_line lines.

Definition record_block (page_num : nat) (txt : string) (st : font_stat)
  : font_stat :=
  {| count := count st + Text.word_count txt;
     positions := positions st ++ [page_num];
     contexts := contexts st ++ [Text.take 50 txt] |}.

Definition stat_element (page_num : nat) (font_data : dict font_stat)
           (el : element) : dict font_stat :=
  match el with
  | LTTextContainer raw _ lines =>
      let txt := Text.strip raw in
      match txt with
      | EmptyString => font_data
      | _ =>
          let sizes := List.map (fun g => round1 (size g)) (glyphs lines) in
          match most_common1 sizes with
          | Some dominant_size =>
              dict_update empty_stat dominant_size
                          (record_block page_num txt) font_data
          | None => font_data
          end
      end
  | LTOther => font_data
  end.

Fixpoint stat_pages (page_num : nat) (pages : list page)
         (font_data : dict font_stat) : dict font_stat :=
  match pages with
  | [] => font_data
  | p :: ps =>
      stat_pages (S page_num) ps
                 (List.fold_left (stat_element page_num) p font_data)
  end.

Definition _extract_font_statistics (pages : list page) : dict font_stat :=
  stat_pages 0 pages [].

(** *** Heading-level classification *)

Definition heading_map : Type := dict level.

(** The function returns a bare empty dict on empty input and a pair
    otherwise. *)
Inductive classification : Type :=
| EmptyDict
| MapAndBody (hm : heading_map) (body_font_size : Q).

(** The admission test of the loop, once the ratio is known. *)
Definition admits (size_ratio : Q) (cnt body_count : nat) : bool :=
  Qlt_bool (115 # 100) size_ratio
  && Qlt_bool (of_nat cnt) (of_nat body_count * (3 # 10))%Q.

Fixpoint classify_loop (body_font_size : Q) (body_count : nat)
         (fonts : list (Q * font_stat)) (hm : heading_map)
         (level_counter : nat) : result heading_map :=
  match fonts with
  | [] => Ok hm
  | (font_size, stats) :: rest =>
      do size_ratio <- truediv font_size body_font_size in
      if admits size_ratio (count stats) body_count then
        match level_counter with
        | 1 => classify_loop body_font_size body_count rest
                             (dict_set font_size H1 hm) 2
        | 2 => classify_loop body_font_size body_count rest
                             (dict_set font_size H2 hm) 3
        | 3 => classify_loop body_font_size body_count rest
                             (dict_set font_size H3 hm) 4
        | _ => Ok hm                                    (* break *)
        end
      else classify_loop body_font_size body_count rest hm level_counter
  end.

Definition sorted_fonts (font_stats : dict font_stat) : list (Q * font_stat) :=
  sorted (fun y x => Qlt_bool (fst x) (fst y)) font_stats.

Definition _classify_heading_levels (font_stats : dict font_stat)
  : result classification :=
  match font_stats with
  | [] => Ok EmptyDict
  | _ =>
      do body_font_candidate <-
         max_by (fun x cur => (count (snd cur) <? count (snd x))%nat) font_stats in
      let body_font_size := fst body_font_candidate in
      do hm <- classify_loop body_font_size (count (snd body_font_candidate))
                             (sorted_fonts font_stats) [] 1 in
      Ok (MapAndBody hm body_font_size)
  end.

(** *** Heading predicate

    [font_size] and [body_size] are [None] when the caller leaves them
    out. *)

Definition truthy (x : option Q) : bool :=
  match x with
  | Some q => negb (Qeq_bool q 0)
  | None => false
  end.

Definition _is_potential_heading (txt : string) (font_size body_size : option Q)
  : bool :=
  if (Text.len txt =? 0)%nat || (Text.len (Text.strip txt) <? 2)%nat then false
  else
    let txt := Text.strip txt in
    (* Exclude common non-headings *)
    if existsb (fun p => re_match true p txt) exclusion_patterns then false
    (* Length-based filtering *)
    else if (200 <? Text.len txt)%nat || (20 <? Text.word_count txt)%nat then false
    (* Pattern matching for common heading structures *)
    else if existsb (fun p => re_match false p txt) heading_patterns then true
    (* Font-based classification (if available) *)
    else if truthy font_size && truthy body_size
            && match font_size, body_size with
               | Some f, Some b => Qlt_bool (b * (11 # 10))%Q f
               | _, _ => false
               end
    then true
    (* Structural indicators *)
    else if Text.endswith_char ":" txt && (Text.word_count txt <=? 5)%nat then true
    (* Position-based heuristics *)
    else if (Text.word_count txt <=? 8)%nat && Text.first_isupper txt then true
    else false.

(** *** Title selection on the native path *)

Record candidate : Type :=
  { ctext : string; font_size : Q; y_position : Q;
    word_count : nat; char_count : nat }.

Definition candidate_of (el : element) : list candidate :=
  match el with
  | LTTextContainer raw y lines =>
      let txt := Text.strip raw in
      match txt with
      | EmptyString => []
      | _ =>
          let font_sizes := List.map size (glyphs lines) in
          match font_sizes with
          | [] => []
          | _ => [ {| ctext := txt;
                      font_size := np_mean font_sizes;
                      y_position := y;
                      word_count := Text.word_count txt;
                      char_count := Text.len txt |} ]
          end
      end
  | LTOther => []
  end.

Definition title_candidates (first_page_elements : list element)
  : list candidate :=
  List.flat_map candidate_of first_page_elements.

(** [max(k(c) for c in candidates)] of a non-empty list of numbers. *)
Definition max_of (k : candidate -> Q) (candidates : list candidate) : result Q :=
  do best <- max_by (fun x cur => Qlt_bool (k cur) (k x)) candidates in
  Ok (k best).

(** [max(0, 20 - abs(word_count - ideal_length) * 2)] *)
Definition length_score (wc : nat) : Z :=
  Z.max 0 (20 - Z.abs (Z.of_nat wc - 6) * 2).

Definition score (candidates : list candidate) (c : candidate) : result npfloat :=
  do max_font <- max_of font_size candidates in
  let s := np_scale (np_truediv (font_size c) max_font) 40 in
  do max_y <- max_of y_position candidates in
  do y_ratio <- truediv (y_position c) max_y in
  let s := np_add s (y_ratio * 30)%Q in
  let s := np_add s (inject_Z (length_score (word_count c))) in
  let s := if (15 <? word_count c)%nat then np_add s (- (20))%Q else s in
  Ok s.

(** The scoring loop: every candidate gets its score, in order. *)
Fixpoint score_all (candidates todo : list candidate)
  : result (list (candidate * npfloat)) :=
  match todo with
  | [] => Ok []
  | c :: rest =>
      do s <- score candidates c in
      do scored <- score_all candidates rest in
      Ok ((c, s) :: scored)
  end.

Definition _extract_title_candidates (first_page_elements : list element)
  : result string :=
  let candidates := title_candidates first_page_elements in
  match candidates with
  | [] => Ok ""
  | _ =>
      do scored <- score_all candidates candidates in
      do best_candidate <- max_by (fun x cur => np_gt (snd x) (snd cur)) scored in
      Ok (ctext (fst best_candidate))
  end.

(** *** Native path

    The heading predicate is a parameter of the loop, so that what the loop
    does with it can be stated; the parser passes
    [_is_potential_heading]. *)

Definition predicate : Type := string -> option Q -> option Q -> bool.

(** The state of the extraction loop: [outline] and [seen_headings]. *)
Definition loop_state : Type := (list entry * gset string)%type.

(** Level from the size ratio, when the font mapping has no entry. *)
Definition ratio_level (dominant_size body_font_size : Q) : option level :=
  let size_ratio :=
    if Qlt_bool 0 body_font_size then (dominant_size / body_font_size)%Q
    else 1%Q in
  if Qlt_bool (15 # 10) size_ratio then Some H1
  else if Qlt_bool (125 # 100) size_ratio then Some H2
  else if Qlt_bool (11 # 10) size_ratio then Some H3
  else None.

Definition heading_level_of (is_heading : predicate) (hm : heading_map)
           (body_font_size : Q) (txt : string) (dominant_size : Q)
  : option level :=
  match dict_get dominant_size hm with
  | Some l => Some l
  | None =>
      if is_heading txt (Some dominant_size) (Some body_font_size)
      then ratio_level dominant_size body_font_size
      else None
  end.

Definition native_element (is_heading : predicate) (hm : heading_map)
           (body_font_size : Q) (ttl : string) (page_num : nat)
           (st : loop_state) (el : element) : loop_state :=
  match el with
  | LTTextContainer raw _ lines =>
      let txt := Text.strip raw in
      if (Text.len txt =? 0)%nat || bool_decide (txt ∈ st.2) then st
      else
        let font_sizes := List.map size (glyphs lines) in
        match most_common1 (List.map round1 font_sizes) with
        | Some dominant_size =>
            match heading_level_of is_heading hm body_font_size txt dominant_size with
            | Some heading_level =>
                if negb (String.eqb txt ttl)
                then ((st.1 ++ [ {| elevel := heading_level; text := txt;
                                    page_no := S page_num |} ])%list,
                      {[ txt ]} ∪ st.2)
                else st
            | None => st
            end
        | None => st
        end
  | LTOther => st
  end.

Fixpoint native_pages (is_heading : predicate) (hm : heading_map)
         (body_font_size : Q) (ttl : string) (page_num : nat)
         (pages : list page) (st : loop_state) : loop_state :=
  match pages with
  | [] => st
  | p :: ps =>
      native_pages is_heading hm body_font_size ttl (S page_num) ps
        (List.fold_left (native_element is_heading hm body_font_size ttl page_num)
                        p st)
  end.

Definition is_text_container (el : element) : bool :=
  match el with
  | LTTextContainer _ _ _ => true
  | LTOther => false
  end.

(** The body of the [try] block. *)
Definition native_body (is_heading : predicate) (pages : list page)
  : result (option record) :=
  match pages with
  | [] => Ok None
  | first_page :: _ =>
      let font_stats := _extract_font_statistics pages in
      do classified <- _classify_heading_levels font_stats in
      match classified with
      | EmptyDict => Raise ValueError      (* two names unpacked from {} *)
      | MapAndBody hm body_font_size =>
          do ttl <- _extract_title_candidates
                      (List.filter is_text_container first_page) in
          Ok (Some {| title := ttl;
                      outline := (native_pages is_heading hm body_font_size
                                               ttl 0 pages ([], ∅)).1 |})
      end
  end.

(** [extracted] is what the layout extraction returned, [None] when it
    raised. *)
Definition parse_with_pdfminer_using (is_heading : predicate)
           (extracted : option (list page)) : option record :=
  match extracted with
  | None => None
  | Some pages => catch (native_body is_heading pages)
  end.

Definition _parse_with_pdfminer (extracted : option (list page))
  : option record :=
  parse_with_pdfminer_using _is_potential_heading extracted.

(** *** OCR path

    The OCR engine returns, per page image, detections made of a
    quadrilateral, the text read and a confidence. *)

Definition point : Type := (Q * Q)%type.

Record detection : Type :=
  { bbox : point * point * point * point; dtext : string; confidence : Q }.

Record text_block : Type :=
  { btext : string; bconfidence : Q;
    x_center : Q; y_center : Q; width : Q; height : Q; area : Q }.

Definition coords (f : point -> Q) (b : point * point * point * point) : list Q :=
  let '(p1, p2, p3, p4) := b in [f p1; f p2; f p3; f p4].

(** [max(l)] and [min(l)] of four numbers. *)
Definition max4 (l : list Q) : Q :=
  match l with
  | [] => 0%Q
  | x :: l' => max_from (fun x cur => Qlt_bool cur x) x l'
  end.

Definition min4 (l : list Q) : Q :=
  match l with
  | [] => 0%Q
  | x :: l' => max_from (fun x cur => Qlt_bool x cur) x l'
  end.

Definition block_of (d : detection) : text_block :=
  let x_coords := coords fst (bbox d) in
  let y_coords := coords snd (bbox d) in
  {| btext := Text.strip (dtext d);
     bconfidence := confidence d;
     x_center := np_mean x_coords;
     y_center := np_mean y_coords;
     width := (max4 x_coords - min4 x_coords)%Q;
     height := (max4 y_coords - min4 y_coords)%Q;
     area := ((max4 x_coords - min4 x_coords)
              * (max4 y_coords - min4 y_coords))%Q |}.

(** The level rule of the OCR path. *)
Definition ocr_level (txt : string) : level :=
  if re_match false
       (Pattern (RSeq upper (RPlus (RSet false [CRange "A" "Z"; CSpace]))) true)
       txt                                           (* ^[A-Z][A-Z\s]+$ *)
     || Text.isupper txt
  then H1
  else if re_match false (Pattern (RSeq (RPlus RDigit) (RChar ".")) false) txt
                                                     (* ^\d+\. *)
          || Text.endswith_char ":" txt
  then H2
  else H3.

(** The state of the OCR loop: [title], [outline] and [seen_headings]. *)
Definition ocr_state : Type := (string * list entry * gset string)%type.

Definition ocr_block_step (is_heading : predicate) (page_num : nat)
           (st : ocr_state) (block : text_block) : ocr_state :=
  let '(ttl, outl, seen) := st in
  let txt := btext block in
  if negb (Text.len txt =? 0)%nat && negb (bool_decide (txt ∈ seen))
     && negb (String.eqb txt ttl) && is_heading txt None None
  then (ttl,
        (outl ++ [ {| elevel := ocr_level txt; text := txt;
                      page_no := S page_num |} ])%list,
        {[ txt ]} ∪ seen)
  else st.

(** The title of the first page: the largest of the three topmost blocks. *)
Definition ocr_title (page_num : nat) (ttl : string)
           (text_blocks : list text_block) : string :=
  if (page_num =? 0)%nat && (Text.len ttl =? 0)%nat then
    match take 3 text_blocks with
    | [] => ttl
    | c :: cs =>
        btext (max_from (fun x cur => Qlt_bool (area cur) (area x)) c cs)
    end
  else ttl.

Definition ocr_page (is_heading : predicate) (page_num : nat)
           (st : ocr_state) (detections : list detection) : ocr_state :=
  match detections with
  | [] => st                               (* not (result and result[0]) *)
  | _ =>
      let text_blocks :=
        sorted (fun y x => Qlt_bool (- y_center y) (- y_center x))
               (List.map block_of
                  (List.filter (fun d => Qlt_bool (7 # 10) (confidence d))
                               detections)) in
      let '(ttl, outl, seen) := st in
      let ttl := ocr_title page_num ttl text_blocks in
      List.fold_left (ocr_block_step is_heading page_num) text_blocks
                     (ttl, outl, seen)
  end.

Fixpoint ocr_pages (is_heading : predicate) (page_num : nat)
         (images : list (list detection)) (st : ocr_state) : ocr_state :=
  match images with
  | [] => st
  | detections :: rest =>
      ocr_pages is_heading (S page_num) rest
                (ocr_page is_heading page_num st detections)
  end.

(** [scanned] is what rasterisation and recognition returned for the
    pages, [None] when either raised. *)
Definition parse_with_ocr_using (is_heading : predicate)
           (scanned : option (list (list detection))) : option record :=
  match scanned with
  | None => None
  | Some images =>
      let '(ttl, outl, _) := ocr_pages is_heading 0 images ("", [], ∅) in
      Some {| title := ttl; outline := outl |}
  end.

Definition _parse_with_ocr (scanned : option (list (list detection)))
  : option record :=
  parse_with_ocr_using _is_potential_heading scanned.

(** *** Orchestration *)

(** The duplicate removal of the merge branch. *)
Definition dedup_step (st : list entry * gset string) (item : entry)
  : list entry * gset string :=
  if bool_decide (text item ∈ st.2) then st
  else ((st.1 ++ [item])%list, {[ text item ]} ∪ st.2).

Definition dedup_outline (items : list entry) : list entry :=
  (List.fold_left dedup_step items ([], ∅)).1.

(** [not r.get('title') and not r.get('outline')] *)
Definition is_blank (r : record) : bool :=
  (Text.len (title r) =? 0)%nat
  && match outline r with [] => true | _ => false end.

Definition final_fallback (pdf_path : string) : record :=
  {| title := Text.replace ".pdf" "" (Text.basename pdf_path); outline := [] |}.

(** The tail of [parse]: the final fallback and the return. *)
Definition finish (pdf_path : string) (result : option record) : record :=
  match result with
  | None => final_fallback pdf_path
  | Some r => r
  end.

Definition orchestrate (pdf_path : string) (result ocr : option record)
  : record :=
  if match result with None => true | Some r => is_blank r end then
    match ocr with
    | Some ocr_result =>               (* a dict with two keys is true *)
        match result with
        | Some r =>
            {| title := str_or (title r) (title ocr_result);
               outline := dedup_outline (outline r ++ outline ocr_result)%list |}
        | None => finish pdf_path (Some ocr_result)
        end
    | None => finish pdf_path result
    end
  else finish pdf_path result.

Definition parse (pdf_path : string) (extracted : option (list page))
           (scanned : option (list (list detection))) : record :=
  orchestrate pdf_path (_parse_with_pdfminer extracted)
              (_parse_with_ocr scanned).

End PDFParser1A.

(** ** The output validator ([src/main.py]) *)

Module Main.
Import Py.

(** The values a parsed record can be made of. *)
#[warnings="-register-all"] Inductive pyval : Type :=
| PNone
| PBool (b : bool)
| PInt (z : Z)
| PFloat (f : npfloat)
| PStr (s : string)
| PList (l : list pyval)
| PDict (d : list (string * pyval)).

Record valid_item : Type := { vlevel : string; vtext : string; vpage : Z }.

Record valid_record : Type := { vtitle : string; voutline : list valid_item }.

(** [key in d] and [d[key]] *)
Fixpoint lookup_key (key : string) (d : list (string * pyval)) : option pyval :=
  match d with
  | [] => None
  | (k, v) :: d' => if String.eqb key k then Some v else lookup_key key d'
  end.

(** [bool(v)] *)
Definition truth (v : pyval) : bool :=
  match v with
  | PNone => false
  | PBool b => b
  | PInt z => negb (z =? 0)%Z
  | PFloat (Fin q) => negb (Qeq_bool q 0)
  | PFloat _ => true
  | PStr s => negb (Text.len s =? 0)%nat
  | PList l => match l with [] => false | _ => true end
  | PDict d => match d with [] => false | _ => true end
  end.

(** [int(v)] for a value that is an [int] or a [float]; any other value is
    replaced by 1 before the conversion is reached. *)
Definition page_of (v : pyval) : result Z :=
  match v with
  | PBool b => Ok (if b then 1 else 0)%Z          (* bool is an int *)
  | PInt z => Ok z
  | PFloat (Fin q) => Ok (Z.quot (Qnum q) (Zpos (Qden q)))
  | PFloat NaN => Raise ValueError
  | PFloat _ => Raise OverflowError
  | _ => Ok 1%Z
  end.

Section Validator.

(** [str(v)] of a float, a list or a dict: the text Python prints for it,
    which the model takes as given. *)
Variable repr : pyval -> string.

(** [str(v)] *)
Definition str (v : pyval) : string :=
  match v with
  | PStr s => s
  | PNone => "None"
  | PBool true => "True"
  | PBool false => "False"
  | PInt z => NilZero.string_of_int (Z.to_int z)
  | other => repr other
  end.

Definition valid_levels : list string := ["H1"; "H2"; "H3"].

(** One turn of the loop over the outline: the item appended, if any. *)
Definition validate_item (item : pyval) : result (option valid_item) :=
  match item with
  | PDict d =>
      match lookup_key "level" d, lookup_key "text" d, lookup_key "page" d with
      | Some lv, Some tx, Some pg =>
          do pg' <- page_of pg in
          let validated_item :=
            {| vlevel := str lv; vtext := Text.strip (str tx); vpage := pg' |} in
          if negb (Text.len (vtext validated_item) =? 0)%nat
             && existsb (String.eqb (vlevel validated_item)) valid_levels
          then Ok (Some validated_item)
          else Ok None
      | _, _, _ => Ok None
      end
  | _ => Ok None
  end.

Fixpoint validate_outline (items : list pyval) : result (list valid_item) :=
  match items with
  | [] => Ok []
  | item :: rest =>
      do v <- validate_item item in
      do vs <- validate_outline rest in
      Ok (match v with Some i => i :: vs | None => vs end)
  end.

Definition validate_json_output (parsed_data : pyval) (pdf_file : string)
  : result valid_record :=
  match parsed_data with
  | PDict d =>
      let ttl := match lookup_key "title" d with
                 | Some t => t
                 | None => PStr ""
                 end in
      let ttl := match ttl with
                 | PStr s => s
                 | other => if truth other then str other else ""
                 end in
      let outl := match lookup_key "outline" d with
                  | Some (PList l) => l
                  | _ => []
                  end in
      do validated_outline <- validate_outline outl in
      Ok {| vtitle := Text.strip ttl; voutline := validated_outline |}
  | _ => Ok {| vtitle := ""; voutline := [] |}
  end.

End Validator.

(** A record of the parser as the value handed to the validator. *)
Definition level_name (l : PDFParser1A.level) : string :=
  match l with
  | PDFParser1A.H1 => "H1"
  | PDFParser1A.H2 => "H2"
  | PDFParser1A.H3 => "H3"
  end.

Definition value_of_entry (e : PDFParser1A.entry) : pyval :=
  PDict [("level", PStr (level_name (PDFParser1A.elevel e)));
         ("text", PStr (PDFParser1A.text e));
         ("page", PInt (Z.of_nat (PDFParser1A.page_no e)))].

Definition value_of_record (r : PDFParser1A.record) : pyval :=
  PDict [("title", PStr (PDFParser1A.title r));
         ("outline", PList (List.map value_of_entry (PDFParser1A.outline r)))].

End Main.

(** ** Vocabulary of the statements *)

Import Regex Py PDFParser1A Main.

Section Dictionaries.
Context {V : Type}.

(** Keys of a dict are pairwise different numbers. *)
Inductive distinct_keys : dict V -> Prop :=
| distinct_nil : distinct_keys []
| distinct_cons k v d :
    Forall (fun kv => ~ (k == fst kv)%Q) d ->
    distinct_keys d -> distinct_keys ((k, v) :: d).

(** Sizes in strictly descending order. *)
Definition descending_keys (d : dict V) : Prop :=
  StronglySorted (fun a b => (fst b < fst a)%Q) d.

End Dictionaries.

(** The levels still to be given out when the counter stands at [n]. *)
Definition levels_from (level_counter : nat) : list level :=
  match level_counter with
  | 1 => [H1; H2; H3]
  | 2 => [H2; H3]
  | 3 => [H3]
  | _ => []
  end.

(** A size passes the admission test of the walk. *)
Definition qualifies (body_font_size : Q) (body_count : nat)
           (kv : Q * font_stat) : bool :=
  admits (fst kv / body_font_size)%Q (count (snd kv)) body_count.

(** The bucket taken as body text: the first one with the largest count. *)
Definition body_candidate (fs : dict font_stat) : option (Q * font_stat) :=
  match fs with
  | [] => None
  | x :: l => Some (max_from (fun x cur => (count (snd cur) <? count (snd x))%nat) x l)
  end.

(** The mapping a classification carries; the bare empty dict is the empty
    mapping. *)
Definition mapping_of (c : classification) : heading_map :=
  match c with
  | EmptyDict => []
  | MapAndBody hm _ => hm
  end.

(** The strict prefix rule as the specification words it: once a size of the
    descending walk fails the admission test, no later size of the walk has an
    entry in the mapping. *)
Definition strict_prefix_rule (fs : dict font_stat) : Prop :=
  forall hm body b,
    _classify_heading_levels fs = Ok (MapAndBody hm body) ->
    body_candidate fs = Some b ->
    forall earlier failed later,
      sorted_fonts fs = (earlier ++ failed :: later)%list ->
      qualifies body (count (snd b)) failed = false ->
      forall kv, In kv later -> dict_get (fst kv) hm = None.

(** A bucket of [n] words. *)
Definition bucket (n : nat) : font_stat :=
  {| count := n; positions := []; contexts := [] |}.

(** Sizes 30, 20 and 10 with 50, 5 and 100 words: 10 is the body size, 30 is
    large but too frequent, 20 is large and rare. *)
Definition frequent_large_first : dict font_stat :=
  [ (30 # 1, bucket 50); (20 # 1, bucket 5); (10 # 1, bucket 100) ]%Q.

(** The body size 10 and four larger, rare sizes. *)
Definition four_large_sizes : dict font_stat :=
  [ (10 # 1, bucket 100); (20 # 1, bucket 5); (50 # 1, bucket 5);
    (30 # 1, bucket 5); (40 # 1, bucket 5) ]%Q.

(** Every character of [s] is whitespace. *)
Definition blank (s : string) : Prop := Text.forallb_str Text.isspace s = true.

(** [s] does not begin with whitespace. *)
Definition clean_start (s : string) : Prop :=
  match s with
  | String a _ => Text.isspace a = false
  | EmptyString => True
  end.

(** [s] does not end with whitespace. *)
Definition clean_end (s : string) : Prop :=
  match Text.last_char s with
  | Some a => Text.isspace a = false
  | None => True
  end.

(** [t] is [s] without the whitespace around it. *)
Definition trimmed_of (s t : string) : Prop :=
  (exists before after, s = before ++ t ++ after /\ blank before /\ blank after)
  /\ clean_start t /\ clean_end t.

(** What the duplicate removal keeps of [items] when the texts in [seen] have
    been met already. *)
Fixpoint dedup_from (seen : gset string) (items : list entry) : list entry :=
  match items with
  | [] => []
  | item :: rest =>
      if bool_decide (text item ∈ seen) then dedup_from seen rest
      else item :: dedup_from ({[ text item ]} ∪ seen) rest
  end.

(** An outline under construction is sound for the title [ttl] and the set
    [seen]: its texts are pairwise different, all of them are in [seen], and
    none is the title. *)
Definition sound_outline (ttl : string) (outl : list entry) (seen : gset string)
  : Prop :=
  NoDup (List.map text outl)
  /\ (forall t, In t (List.map text outl) -> t ∈ seen)
  /\ ~ In ttl (List.map text outl).

(** The records the paths return: texts pairwise different, none the title. *)
Definition unique_outline (r : record) : Prop :=
  NoDup (List.map text (outline r)) /\ ~ In (title r) (List.map text (outline r)).

(** A path that returns a record returns one with a unique outline. *)
Definition unique_if_returned (o : option record) : Prop :=
  match o with
  | Some r => unique_outline r
  | None => True
  end.

(** The entry appended for a block with text [txt] on the page numbered
    [page_num] from zero. *)
Definition emitted (lvl : level) (txt : string) (page_num : nat) : entry :=
  {| elevel := lvl; text := txt; page_no := S page_num |}.

(** A block set in 18 point whose text the heading predicate excludes. *)
Definition url_block : element :=
  LTTextContainer "www.example.com" (700 # 1)%Q
                  [Line [Glyph {| size := (18 # 1)%Q |}; Anno;
                         Glyph {| size := (18 # 1)%Q |}]].

(** One page with a text block whose children carry no glyph. *)
Definition page_without_glyphs : list page :=
  [[LTTextContainer "Annual Report" (700 # 1)%Q [Leaf]; LTOther]].

(** The end-to-end fallback as the specification words it. *)
Definition filename_fallback_claim (pdf_path : string)
           (extracted : option (list page))
           (scanned : option (list (list detection))) : Prop :=
  _parse_with_pdfminer extracted = None ->
  _parse_with_ocr scanned = Some {| title := ""; outline := [] |} ->
  parse pdf_path extracted scanned = final_fallback pdf_path.

(** [m] is the largest value of [k] among the candidates. *)
Definition largest (k : candidate -> Q) (candidates : list candidate) (m : Q)
  : Prop :=
  (exists c, In c candidates /\ (k c == m)%Q)
  /\ forall c, In c candidates -> (k c <= m)%Q.

(** The score as the specification gives it. *)
Definition spec_score (max_font max_y : Q) (c : candidate) : Q :=
  (40 * (font_size c / max_font) + 30 * (y_position c / max_y)
   + inject_Z (Z.max 0 (20 - 2 * Z.abs (Z.of_nat (word_count c) - 6)))
   - (if (15 <? word_count c)%nat then 20 else 0))%Q.

(** The score as the loop adds it up. *)
Definition summed_score (max_font max_y : Q) (c : candidate) : Q :=
  let s := (font_size c / max_font * 40 + y_position c / max_y * 30
            + inject_Z (length_score (word_count c)))%Q in
  if (15 <? word_count c)%nat then (s + - (20))%Q else s.

(** A first page with a large heading near the top and a line of small print
    below it. *)
Definition first_page_two_blocks : list element :=
  [ LTTextContainer "  Annual Report 2024 " (700 # 1)%Q
      [Line [Glyph {| size := (24 # 1)%Q |}; Anno; Glyph {| size := (24 # 1)%Q |}]];
    LTOther;
    LTTextContainer "Prepared by the finance team" (650 # 1)%Q
      [Line [Glyph {| size := (10 # 1)%Q |}; Glyph {| size := (12 # 1)%Q |}]; Leaf] ].

(** The value is an [int] (a [bool] is one) or a [float]. *)
Definition numeric (v : pyval) : Prop :=
  match v with
  | PBool _ | PInt _ | PFloat _ => True
  | _ => False
  end.

(** The page written out for the page value [pg]: 1 unless [pg] is numeric,
    and the integer part of [pg] when it is. *)
Definition page_written (pg : pyval) (p : Z) : Prop :=
  (~ numeric pg /\ p = 1%Z) \/ (numeric pg /\ page_of pg = Ok p).

(** What becomes of one item of the outline, in the words of the
    specification: dropped ([None]) or kept in sanitised form. *)
Inductive item_outcome (repr : pyval -> string)
  : pyval -> option valid_item -> Prop :=
| drop_not_a_dict v :
    (forall d, v ≠ PDict d) -> item_outcome repr v None
| drop_missing_key d key :
    In key ["level"; "text"; "page"] -> lookup_key key d = None ->
    item_outcome repr (PDict d) None
| drop_invalid_level d lv :
    lookup_key "level" d = Some lv ->
    ~ In (str repr lv) ["H1"; "H2"; "H3"] ->
    item_outcome repr (PDict d) None
| drop_empty_text d tx :
    lookup_key "text" d = Some tx ->
    trimmed_of (str repr tx) "" ->
    item_outcome repr (PDict d) None
| keep_item d lv tx pg t p :
    lookup_key "level" d = Some lv ->
    lookup_key "text" d = Some tx ->
    lookup_key "page" d = Some pg ->
    In (str repr lv) ["H1"; "H2"; "H3"] ->
    trimmed_of (str repr tx) t ->
    t ≠ "" ->
    page_written pg p ->
    item_outcome repr (PDict d)
      (Some {| vlevel := str repr lv; vtext := t; vpage := p |}).

(** The items kept, in order. *)
Definition kept (outcomes : list (option valid_item)) : list valid_item :=
  List.flat_map (fun o => match o with Some i => [i] | None => [] end) outcomes.

(** The items of the outline of a record, as the validator reads them. *)
Definition outline_items (d : list (string * pyval)) : list pyval :=
  match lookup_key "outline" d with
  | Some (PList l) => l
  | _ => []
  end.

(** The validator only raises on a page that is an infinite or undefined
    float. *)
Definition finite_page (item : pyval) : Prop :=
  match item with
  | PDict d =>
      match lookup_key "page" d with
      | Some (PFloat (Fin _)) => True
      | Some (PFloat _) => False
      | _ => True
      end
  | _ => True
  end.

(** A record with a good item among items of every kind the validator
    drops. *)
Definition untidy_record : list (string * pyval) :=
  [ ("title", PStr "  Annual Report ");
    ("outline",
     PList [ PDict [("level", PStr "H4"); ("text", PStr "x"); ("page", PInt 1)];
             PDict [("level", PStr "H2"); ("text", PStr "  Scope ");
                    ("page", PStr "three")];
             PDict [("level", PStr "H1"); ("text", PStr "   "); ("page", PInt 2)];
             PDict [("level", PStr "H1"); ("text", PStr "Introduction")];
             PStr "Introduction";
             PDict [("level", PStr "H3"); ("text", PInt 2024);
                    ("page", PFloat (Fin (7 # 2)))] ]) ].

(** What the validator makes of it. *)
Definition tidy_record : valid_record :=
  {| vtitle := "Annual Report";
     voutline := [ {| vlevel := "H2"; vtext := "Scope"; vpage := 1 |};
                   {| vlevel := "H3"; vtext := "2024"; vpage := 3 |} ] |}.

(** A line of [n] glyphs of size [sz]. *)
Definition glyph_line (sz : Q) (n : nat) : line_node :=
  Line (List.repeat (Glyph {| size := sz |}) n).

(** A two-page document: a title, a heading in 18 point, body text in 12
    point, and on the next page a second heading and the first one again. *)
Definition sample_document : list page :=
  [ [ LTTextContainer "Annual Report 2024" (760 # 1)%Q [glyph_line (24 # 1) 18];
      LTTextContainer "Introduction" (700 # 1)%Q [glyph_line (18 # 1) 12];
      LTTextContainer
        "this report describes the work of the year in plain words and figures for all readers"
        (600 # 1)%Q [glyph_line (12 # 1) 80];
      LTOther ];
    [ LTTextContainer "Results" (700 # 1)%Q [glyph_line (18 # 1) 7];
      LTTextContainer "Introduction" (650 # 1)%Q [glyph_line (18 # 1) 12];
      LTTextContainer
        "the figures of the year are given in the tables below with notes on every line of them"
        (600 # 1)%Q [glyph_line (12 # 1) 80] ] ].



(** ** The model at work *)

Section Examples.

Example strip_example : Text.strip "  Scope and aims   " = "Scope and aims".
Proof. reflexivity. Qed.

Example split_example : Text.split " a  bb" = ["a"; "bb"].
Proof. reflexivity. Qed.

Example fallback_title_example :
  title (final_fallback "/data/in/report.v2.pdf") = "report.v2".
Proof. reflexivity. Qed.

Example round1_ties_to_even : round1 (5 # 4) = (12 # 10)%Q /\ round1 (27 # 20) = (14 # 10)%Q.
Proof. split; reflexivity. Qed.

Example heading_all_caps : _is_potential_heading "REVENUE AND EXPENSES" None None = true.
Proof. vm_compute. reflexivity. Qed.

Example heading_numbered : _is_potential_heading "1. Introduction" None None = true.
Proof. vm_compute. reflexivity. Qed.

Example not_heading_number : _is_potential_heading "42" None None = false.
Proof. vm_compute. reflexivity. Qed.

Example not_heading_parenthetical :
  _is_potential_heading "(see appendix)" None None = false.
Proof. vm_compute. reflexivity. Qed.

Example not_heading_page_number : _is_potential_heading "Page 12" None None = false.
Proof. vm_compute. reflexivity. Qed.

Example not_heading_long_sentence :
  _is_potential_heading
    "one two three four five six seven eight nine ten eleven twelve thirteen fourteen fifteen sixteen seventeen eighteen nineteen twenty twentyone twentytwo twentythree twentyfour twentyfive"
    None None = false.
Proof. vm_compute. reflexivity. Qed.

Example heading_by_font_ratio :
  _is_potential_heading "results of the year" (Some (14 # 1)%Q) (Some (12 # 1)%Q) = true
  /\ _is_potential_heading "results of the year" None None = false.
Proof. vm_compute. split; reflexivity. Qed.

Example classify_sample :
  _classify_heading_levels (_extract_font_statistics sample_document)
  = Ok (MapAndBody [((240 # 10)%Q, H1); ((180 # 10)%Q, H2)] (120 # 10)%Q).
Proof. vm_compute. reflexivity. Qed.

Example parse_sample :
  parse "report.pdf" (Some sample_document) None
  = {| title := "Annual Report 2024";
       outline := [ {| elevel := H2; text := "Introduction"; page_no := 1 |};
                    {| elevel := H2; text := "Results"; page_no := 2 |} ] |}.
Proof. vm_compute. reflexivity. Qed.

End Examples.

(** ** Numbers, dictionaries and sorting *)

Section NumberFacts.

Lemma Qlt_bool_iff (a b : Q) : Qlt_bool a b = true <-> (a < b)%Q.
Proof.
  unfold Qlt_bool. rewrite negb_true_iff. split.
  - intros H. apply Qnot_le_lt. intros Hle.
    apply Qle_bool_iff in Hle. congruence.
  - intros H. destruct (Qle_bool b a) eqn:E; [|reflexivity].
    apply Qle_bool_iff in E. exfalso. exact (Qlt_not_le _ _ H E).
Qed.

Lemma Qlt_bool_false (a b : Q) : Qlt_bool a b = false <-> (b <= a)%Q.
Proof.
  unfold Qlt_bool. rewrite negb_false_iff. apply Qle_bool_iff.
Qed.

Lemma Qeq_bool_false (a b : Q) : Qeq_bool a b = false <-> ~ (a == b)%Q.
Proof.
  split.
  - apply Qeq_bool_neq.
  - intros H. destruct (Qeq_bool a b) eqn:E; [|reflexivity].
    apply Qeq_bool_eq in E. contradiction.
Qed.

Lemma truediv_ok (a b : Q) : ~ (b == 0)%Q -> truediv a b = Ok (a / b)%Q.
Proof.
  intros H. unfold truediv. apply Qeq_bool_false in H. now rewrite H.
Qed.

Lemma truediv_zero (a b : Q) : (b == 0)%Q -> truediv a b = Raise ZeroDivisionError.
Proof.
  intros H. unfold truediv. now rewrite (Qeq_eq_bool _ _ H).
Qed.

End NumberFacts.

Section DictFacts.
Context {V : Type}.


Lemma dict_get_none (k : Q) (d : dict V) :
  dict_get k d = None <-> Forall (fun kv => ~ (k == fst kv)%Q) d.
Proof.
  induction d as [|[k' v'] d IH]; simpl.
  - split; [constructor | reflexivity].
  - destruct (Qeq_bool k k') eqn:E.
    + split; [discriminate|]. intros H. inversion H as [|? ? Hk _]. subst.
      simpl in Hk. apply Qeq_bool_eq in E. contradiction.
    + rewrite IH. apply Qeq_bool_false in E. split.
      * intros H. constructor; assumption.
      * intros H. now inversion H.
Qed.

Lemma dict_set_fresh (k : Q) (v : V) (d : dict V) :
  dict_get k d = None -> dict_set k v d = (d ++ [(k, v)])%list.
Proof.
  induction d as [|[k' v'] d IH]; simpl; [reflexivity|].
  destruct (Qeq_bool k k'); [discriminate|].
  intros H. now rewrite IH.
Qed.

Lemma dict_get_app_none (k : Q) (d1 d2 : dict V) :
  dict_get k (d1 ++ d2)%list = None <-> dict_get k d1 = None /\ dict_get k d2 = None.
Proof.
  rewrite !dict_get_none. apply Forall_app.
Qed.

End DictFacts.

Section SortFacts.
Context {A : Type} (before : A -> A -> bool).

Lemma In_insert_sorted (x z : A) (l : list A) :
  In z (insert_sorted before x l) <-> z = x \/ In z l.
Proof.
  induction l as [|y l IH]; simpl.
  - intuition.
  - destruct (before y x); simpl; rewrite ?IH; intuition.
Qed.

Lemma In_sorted (z : A) (l : list A) : In z (sorted before l) <-> In z l.
Proof.
  induction l as [|x l IH]; simpl; [reflexivity|].
  rewrite In_insert_sorted, IH. intuition.
Qed.

Lemma length_insert_sorted (x : A) (l : list A) :
  length (insert_sorted before x l) = S (length l).
Proof.
  induction l as [|y l IH]; simpl; [reflexivity|].
  destruct (before y x); simpl; [now rewrite IH | reflexivity].
Qed.

End SortFacts.

Section ClassifierFacts.


Lemma insert_descending {V : Type} (x : Q * V) (l : dict V) :
  descending_keys l ->
  Forall (fun kv => ~ (fst x == fst kv)%Q) l ->
  descending_keys (insert_sorted (fun y x => Qlt_bool (fst x) (fst y)) x l).
Proof.
  unfold descending_keys.
  induction l as [|y l IH]; simpl; intros Hs Hd.
  - repeat constructor.
  - inversion Hs as [|? ? Hs' Hy]; subst.
    inversion Hd as [|? ? Hxy Hd']; subst.
    destruct (Qlt_bool (fst x) (fst y)) eqn:E.
    + apply Qlt_bool_iff in E. constructor; [now apply IH|].
      apply List.Forall_forall. intros z Hz.
      apply In_insert_sorted in Hz as [->|Hz]; [assumption|].
      rewrite List.Forall_forall in Hy. now apply Hy.
    + apply Qlt_bool_false in E.
      assert (Hlt : (fst y < fst x)%Q).
      { apply Qle_lteq in E as [E|E]; [assumption|]. symmetry in E. contradiction. }
      constructor; [now constructor|].
      constructor; [assumption|].
      eapply List.Forall_impl; [|exact Hy]. simpl. intros z Hz.
      now apply Qlt_trans with (fst y).
Qed.

Lemma sorted_fonts_descending (fs : dict font_stat) :
  distinct_keys fs -> descending_keys (sorted_fonts fs).
Proof.
  induction 1 as [|k v d Hk Hd IH]; unfold sorted_fonts; simpl.
  - constructor.
  - apply insert_descending; [exact IH|].
    apply List.Forall_forall. intros z Hz. apply In_sorted in Hz.
    rewrite List.Forall_forall in Hk. now apply Hk.
Qed.

Lemma descending_filter {V : Type} (p : Q * V -> bool) (d : dict V) :
  descending_keys d -> descending_keys (List.filter p d).
Proof.
  unfold descending_keys. induction 1 as [|x l Hs IH Hx]; simpl; [constructor|].
  destruct (p x); [|assumption].
  constructor; [assumption|].
  apply List.Forall_forall. intros z Hz. apply List.filter_In in Hz as [Hz _].
  rewrite List.Forall_forall in Hx. now apply Hx.
Qed.

Lemma descending_distinct {V : Type} (d : dict V) :
  descending_keys d -> distinct_keys d.
Proof.
  induction 1 as [|[k v] l Hs IH Hx]; constructor; [|assumption].
  eapply List.Forall_impl; [|exact Hx]. simpl. intros z Hz Heq.
  rewrite Heq in Hz. exact (Qlt_irrefl _ Hz).
Qed.



Lemma classify_loop_spec (body : Q) (bc : nat) (fonts : dict font_stat) :
  ~ (body == 0)%Q ->
  distinct_keys fonts ->
  forall (hm : heading_map) (lc : nat),
    Forall (fun kv => dict_get (fst kv) hm = None) fonts ->
    classify_loop body bc fonts hm lc
    = Ok (hm ++ combine (List.map fst (List.filter (qualifies body bc) fonts))
                        (levels_from lc))%list.
Proof.
  intros Hb. induction 1 as [|k v d Hk Hd IH]; intros hm lc Hfresh; simpl.
  - now rewrite app_nil_r.
  - inversion Hfresh as [|? ? Hkhm Hfresh']; subst. simpl in Hkhm.
    rewrite (truediv_ok _ _ Hb). simpl.
    unfold qualifies at 1. simpl.
    destruct (admits (k / body)%Q (count v) bc) eqn:E; [|now apply IH].
    assert (Hstep : forall l, Forall (fun kv => dict_get (fst kv) (dict_set k l hm) = None) d).
    { intros l. rewrite dict_set_fresh by assumption.
      apply List.Forall_forall. intros z Hz. apply dict_get_app_none. split.
      - rewrite List.Forall_forall in Hfresh'. now apply Hfresh'.
      - simpl. rewrite List.Forall_forall in Hk. specialize (Hk z Hz).
        destruct (Qeq_bool (fst z) k) eqn:E'; [|reflexivity].
        apply Qeq_bool_eq in E'. symmetry in E'. contradiction. }
    destruct lc as [|[|[|[|lc]]]]; simpl.
    + now rewrite app_nil_r.
    + rewrite IH by apply Hstep. rewrite dict_set_fresh by assumption.
      now rewrite <- app_assoc.
    + rewrite IH by apply Hstep. rewrite dict_set_fresh by assumption.
      now rewrite <- app_assoc.
    + rewrite IH by apply Hstep. rewrite dict_set_fresh by assumption.
      rewrite <- app_assoc. simpl.
      now destruct (List.map fst (List.filter (qualifies body bc) d)).
    + now rewrite app_nil_r.
Qed.

Lemma classify_loop_zero_body (body : Q) (bc : nat) (fonts : dict font_stat)
      (hm : heading_map) (lc : nat) :
  (body == 0)%Q -> fonts <> [] ->
  classify_loop body bc fonts hm lc = Raise ZeroDivisionError.
Proof.
  intros Hb Hne. destruct fonts as [|[k v] d]; [congruence|].
  simpl. now rewrite (truediv_zero _ _ Hb).
Qed.


Lemma classify_returns (fs : dict font_stat) (b : Q * font_stat) :
  distinct_keys fs ->
  body_candidate fs = Some b ->
  ~ (fst b == 0)%Q ->
  _classify_heading_levels fs
  = Ok (MapAndBody
          (combine (List.map fst (List.filter (qualifies (fst b) (count (snd b)))
                                              (sorted_fonts fs)))
                   [H1; H2; H3])
          (fst b)).
Proof.
  intros Hd Hb Hnz. destruct fs as [|x l]; [discriminate|].
  simpl in Hb. injection Hb as Hb.
  unfold _classify_heading_levels, max_by. simpl bind. rewrite Hb.
  rewrite classify_loop_spec.
  - reflexivity.
  - assumption.
  - apply descending_distinct. exact (sorted_fonts_descending (x :: l) Hd).
  - apply List.Forall_forall. reflexivity.
Qed.

Lemma classify_inv (fs : dict font_stat) (hm : heading_map) (body : Q) :
  distinct_keys fs ->
  _classify_heading_levels fs = Ok (MapAndBody hm body) ->
  exists b, body_candidate fs = Some b /\ body = fst b /\ ~ (body == 0)%Q
            /\ hm = combine (List.map fst (List.filter (qualifies body (count (snd b)))
                                                       (sorted_fonts fs)))
                            [H1; H2; H3].
Proof.
  intros Hd Hc. destruct fs as [|x l] eqn:Hfs; [discriminate|].
  rewrite <- Hfs in *.
  destruct (body_candidate fs) as [b|] eqn:Hb; [|subst; discriminate].
  destruct (Qeq_bool (fst b) 0) eqn:Hz.
  - exfalso. apply Qeq_bool_eq in Hz.
    subst fs. simpl in Hb. injection Hb as Hb.
    unfold _classify_heading_levels, max_by in Hc. simpl bind in Hc.
    rewrite Hb in Hc.
    rewrite classify_loop_zero_body in Hc; [discriminate|assumption|].
    intros Hnil. apply (f_equal (@length _)) in Hnil.
    unfold sorted_fonts in Hnil. simpl in Hnil.
    rewrite length_insert_sorted in Hnil. discriminate.
  - apply Qeq_bool_false in Hz.
    rewrite (classify_returns fs b Hd Hb Hz) in Hc.
    injection Hc as <- <-. exists b. repeat split; assumption.
Qed.

End ClassifierFacts.

Section CombineFacts.
Context {A B : Type}.

Lemma map_fst_combine (l : list A) (l' : list B) :
  List.map fst (combine l l') = take (length l') l.
Proof.
  revert l'. induction l as [|x l IH]; intros [|y l']; simpl; try reflexivity.
  now rewrite IH.
Qed.

Lemma map_snd_combine (l : list A) (l' : list B) :
  List.map snd (combine l l') = take (length (combine l l')) l'.
Proof.
  revert l'. induction l as [|x l IH]; intros [|y l']; simpl; try reflexivity.
  now rewrite IH.
Qed.

Lemma length_combine_le (l : list A) (l' : list B) :
  length (combine l l') <= length l'.
Proof.
  revert l'. induction l as [|x l IH]; intros [|y l']; simpl; try lia.
  specialize (IH l'). lia.
Qed.

End CombineFacts.

Lemma StronglySorted_take {A : Type} (R : A -> A -> Prop) (n : nat) (l : list A) :
  StronglySorted R l -> StronglySorted R (take n l).
Proof.
  intros H. revert n. induction H as [|x l Hs IH Hx]; intros [|n]; simpl;
    try constructor.
  - apply IH.
  - apply List.Forall_forall. intros z Hz.
    rewrite List.Forall_forall in Hx. apply Hx.
    apply list_elem_of_In. apply list_elem_of_In in Hz.
    eapply subseteq_take; eassumption.
Qed.

Lemma StronglySorted_map_fst {V : Type} (d : dict V) :
  descending_keys d ->
  StronglySorted (fun a b => (b < a)%Q) (List.map fst d).
Proof.
  induction 1 as [|x l Hs IH Hx]; simpl; constructor; [assumption|].
  apply List.Forall_forall. intros z Hz. apply List.in_map_iff in Hz as [w [<- Hw]].
  rewrite List.Forall_forall in Hx. now apply Hx.
Qed.





(** C1, counterexample: size 30 fails the test at the head of the walk and
    size 20, which comes later, is admitted all the same (as H1). *)
Lemma strict_prefix_rule_fails : ~ strict_prefix_rule frequent_large_first.
Proof.
  intros H.
  specialize (H [(20 # 1, H1)]%Q (10 # 1)%Q (10 # 1, bucket 100)%Q
                eq_refl eq_refl
                [] (30 # 1, bucket 50)%Q
                [ (20 # 1, bucket 5); (10 # 1, bucket 100) ]%Q
                eq_refl eq_refl
                (20 # 1, bucket 5)%Q (or_introl eq_refl)).
  discriminate H.
Qed.

(** C1, amended: a size that fails the admission test is skipped and the walk
    goes on.  For a non-empty mapping whose body size is not zero the
    classifier returns, and its map holds the first three sizes of the
    descending walk that pass the test (all of them when fewer than three
    pass), with the levels H1, H2, H3 in that order. *)
Theorem classifier_skips_failed_sizes (fs : dict font_stat) (b : Q * font_stat) :
  distinct_keys fs ->
  body_candidate fs = Some b ->
  ~ (fst b == 0)%Q ->
  exists hm,
    _classify_heading_levels fs = Ok (MapAndBody hm (fst b))
    /\ List.map fst hm
       = take 3 (List.map fst (List.filter (qualifies (fst b) (count (snd b)))
                                           (sorted_fonts fs)))
    /\ List.map snd hm = take (length hm) [H1; H2; H3].
Proof.
  intros Hd Hb Hnz. eexists. split; [now apply classify_returns|].
  split; [apply map_fst_combine | apply map_snd_combine].
Qed.

Lemma distinct_frequent_large_first : distinct_keys frequent_large_first.
Proof.
  unfold frequent_large_first.
  repeat (constructor; [repeat constructor; simpl; intros H; discriminate H|]).
  constructor.
Qed.

Lemma classifier_skips_failed_sizes_witness :
  exists hm,
    _classify_heading_levels frequent_large_first = Ok (MapAndBody hm (10 # 1)%Q)
    /\ List.map fst hm = [(20 # 1)%Q]
    /\ List.map snd hm = take (length hm) [H1; H2; H3].
Proof.
  apply (classifier_skips_failed_sizes frequent_large_first (10 # 1, bucket 100)%Q).
  - exact distinct_frequent_large_first.
  - reflexivity.
  - simpl. intros H. discriminate H.
Defined.

(** C3: the map of the classifier has at most three entries, its sizes are
    strictly decreasing in the order of the map, and their levels are H1, H2,
    H3 in that order without a gap. *)
Theorem heading_map_at_most_three_descending (fs : dict font_stat)
        (c : classification) :
  distinct_keys fs ->
  _classify_heading_levels fs = Ok c ->
  length (mapping_of c) <= 3
  /\ StronglySorted (fun a b => (b < a)%Q) (List.map fst (mapping_of c))
  /\ List.map snd (mapping_of c) = take (length (mapping_of c)) [H1; H2; H3].
Proof.
  intros Hd Hc. destruct c as [|hm body]; simpl.
  - repeat split; [lia | constructor].
  - destruct (classify_inv fs hm body Hd Hc) as (b & Hb & -> & Hnz & ->).
    split; [apply (length_combine_le _ [H1; H2; H3])|].
    split; [|apply map_snd_combine].
    rewrite map_fst_combine. apply StronglySorted_take.
    apply StronglySorted_map_fst, descending_filter.
    now apply sorted_fonts_descending.
Qed.

Lemma distinct_four_large_sizes : distinct_keys four_large_sizes.
Proof.
  unfold four_large_sizes.
  repeat (constructor; [repeat constructor; simpl; intros H; discriminate H|]).
  constructor.
Qed.

Lemma heading_map_at_most_three_descending_witness :
  _classify_heading_levels four_large_sizes
  = Ok (MapAndBody [(50 # 1, H1); (40 # 1, H2); (30 # 1, H3)]%Q (10 # 1)%Q)
  /\ length [(50 # 1, H1); (40 # 1, H2); (30 # 1, H3)]%Q <= 3
  /\ StronglySorted (fun a b => (b < a)%Q) [50 # 1; 40 # 1; 30 # 1]%Q
  /\ [H1; H2; H3] = take 3 [H1; H2; H3].
Proof.
  split; [reflexivity|].
  apply (heading_map_at_most_three_descending four_large_sizes
           (MapAndBody [(50 # 1, H1); (40 # 1, H2); (30 # 1, H3)]%Q (10 # 1)%Q)).
  - exact distinct_four_large_sizes.
  - reflexivity.
Defined.

(** ** Text *)

Section TextFacts.

Lemma append_assoc (a b c : string) : (a ++ b) ++ c = a ++ (b ++ c).
Proof.
  induction a as [|x a IH]; [reflexivity|]. exact (f_equal (String x) IH).
Qed.

Lemma append_empty (a : string) : a ++ "" = a.
Proof.
  induction a as [|x a IH]; [reflexivity|]. exact (f_equal (String x) IH).
Qed.

Lemma rev_append_spec (s acc : string) :
  Text.rev_append s acc = Text.rev s ++ acc.
Proof.
  revert acc. induction s as [|a s IH]; intros acc; [reflexivity|].
  unfold Text.rev. simpl. rewrite (IH (String a acc)), (IH (String a "")).
  now rewrite append_assoc.
Qed.

Lemma rev_cons (a : ascii) (s : string) :
  Text.rev (String a s) = Text.rev s ++ String a "".
Proof. unfold Text.rev at 1. simpl. apply rev_append_spec. Qed.

Lemma rev_app (s t : string) : Text.rev (s ++ t) = Text.rev t ++ Text.rev s.
Proof.
  induction s as [|a s IH].
  - cbn [String.append]. now rewrite append_empty.
  - change (Text.rev (String a (s ++ t)) = Text.rev t ++ Text.rev (String a s)).
    now rewrite !rev_cons, IH, append_assoc.
Qed.

Lemma rev_involutive (s : string) : Text.rev (Text.rev s) = s.
Proof.
  induction s as [|a s IH]; [reflexivity|].
  now rewrite rev_cons, rev_app, IH.
Qed.

Lemma blank_app (s t : string) : blank (s ++ t) <-> blank s /\ blank t.
Proof.
  unfold blank. induction s as [|a s IH]; simpl.
  - tauto.
  - rewrite andb_true_iff, IH, andb_true_iff. tauto.
Qed.

Lemma blank_rev (s : string) : blank s -> blank (Text.rev s).
Proof.
  induction s as [|a s IH]; [trivial|].
  intros H. rewrite rev_cons. apply blank_app.
  unfold blank in *. simpl in *. apply andb_true_iff in H as [Ha Hs].
  split; [now apply IH | now rewrite Ha].
Qed.

Lemma last_char_app (s : string) (a : ascii) :
  Text.last_char (s ++ String a "") = Some a.
Proof.
  induction s as [|b s IH]; [reflexivity|].
  simpl. rewrite IH. now destruct (s ++ String a "").
Qed.

Lemma clean_end_rev (s : string) : clean_start s -> clean_end (Text.rev s).
Proof.
  destruct s as [|a s]; [trivial|].
  unfold clean_end. rewrite rev_cons, last_char_app. trivial.
Qed.

Lemma lstrip_spec (s : string) :
  exists before, s = before ++ Text.lstrip s /\ blank before
                 /\ clean_start (Text.lstrip s).
Proof.
  induction s as [|a s (before & Hs & Hb & Hc)].
  - exists "". repeat split.
  - cbn [Text.lstrip]. destruct (Text.isspace a) eqn:Ha.
    + exists (String a before). split; [exact (f_equal (String a) Hs)|].
      split; [|assumption]. unfold blank in *. cbn [Text.forallb_str].
      now rewrite Ha, Hb.
    + exists "". repeat split. exact Ha.
Qed.

Lemma rstrip_spec (s : string) :
  exists after, s = Text.rstrip s ++ after /\ blank after
                /\ clean_end (Text.rstrip s).
Proof.
  destruct (lstrip_spec (Text.rev s)) as (before & Hs & Hb & Hc).
  exists (Text.rev before). unfold Text.rstrip. repeat split.
  - rewrite <- rev_app, <- Hs. now rewrite rev_involutive.
  - now apply blank_rev.
  - now apply clean_end_rev.
Qed.

Lemma strip_trimmed (s : string) : trimmed_of s (Text.strip s).
Proof.
  destruct (lstrip_spec s) as (before & Hs & Hb & Hc).
  destruct (rstrip_spec (Text.lstrip s)) as (after & Hl & Ha & He).
  unfold Text.strip. split; [|split; [|exact He]].
  - exists before, after. repeat split; [|assumption|assumption].
    now rewrite <- Hl.
  - rewrite Hl in Hc. destruct (Text.rstrip (Text.lstrip s)); [trivial | exact Hc].
Qed.

End TextFacts.

(** ** The pattern bank *)

Section PatternFacts.

Lemma prefix_match_none (ic : bool) (s : string) : prefix_match ic RNone s = false.
Proof. induction s as [|a s IH]; simpl; [reflexivity | exact IH]. Qed.

Lemma prefix_match_eps (ic : bool) (s : string) : prefix_match ic REps s = true.
Proof. destruct s; reflexivity. Qed.

Lemma at_sign_set (a : ascii) :
  set_mem true false [CChar "@"] a = Ascii.eqb a "@".
Proof.
  destruct a as [[] [] [] [] [] [] [] []]; reflexivity.
Qed.

(** The exclusion pattern for e-mail addresses, tried the way the predicate
    tries it, matches the texts that begin with [@] and no other. *)
Lemma at_sign_pattern_only_at_start (s : string) :
  re_match true (Pattern (RChar "@") false) s = true
  <-> exists rest, s = String "@" rest.
Proof.
  unfold re_match. cbn [to_end body]. destruct s as [|a s].
  - split; [discriminate | intros [rest H]; discriminate].
  - cbn [prefix_match nullable RChar orb deriv]. rewrite at_sign_set.
    destruct (Ascii.eqb_spec a "@") as [->|Hne].
    + rewrite prefix_match_eps. split; eauto.
    + rewrite prefix_match_none. split; [discriminate|].
      intros [rest [= H _]]. contradiction.
Qed.

End PatternFacts.

(** ** Outlines without duplicates *)

Section DedupFacts.

Lemma not_seen_add (t u : string) (seen : gset string) :
  t ∉ {[ u ]} ∪ seen <-> t ≠ u /\ t ∉ seen.
Proof. rewrite elem_of_union, elem_of_singleton. tauto. Qed.

Lemma dedup_fold (items : list entry) (acc : list entry) (seen : gset string) :
  (List.fold_left dedup_step items (acc, seen)).1
  = (acc ++ dedup_from seen items)%list.
Proof.
  revert acc seen. induction items as [|item rest IH]; intros acc seen; simpl.
  - now rewrite app_nil_r.
  - unfold dedup_step at 2. simpl.
    destruct (bool_decide (text item ∈ seen)); rewrite IH; [reflexivity|].
    now rewrite <- app_assoc.
Qed.

Lemma dedup_outline_from (items : list entry) :
  dedup_outline items = dedup_from ∅ items.
Proof. unfold dedup_outline. now rewrite dedup_fold. Qed.

Lemma dedup_from_In (seen : gset string) (items : list entry) (e : entry) :
  In e (dedup_from seen items) -> In e items /\ text e ∉ seen.
Proof.
  revert seen. induction items as [|item rest IH]; intros seen; simpl; [tauto|].
  case_bool_decide as Hs.
  - intros H. apply IH in H. tauto.
  - intros [<-|H]; [tauto|]. apply IH in H as [H1 H2].
    apply not_seen_add in H2. tauto.
Qed.

Lemma dedup_from_NoDup (seen : gset string) (items : list entry) :
  NoDup (List.map text (dedup_from seen items)).
Proof.
  revert seen. induction items as [|item rest IH]; intros seen; simpl.
  - constructor.
  - case_bool_decide as Hs; [apply IH|]. simpl.
    apply NoDup_cons. split; [|apply IH].
    intros Hin. apply list_elem_of_In, List.in_map_iff in Hin as [e [He Hin]].
    apply dedup_from_In in Hin as [_ Hn]. set_solver.
Qed.

Lemma dedup_from_fixed (seen : gset string) (items : list entry) :
  NoDup (List.map text items) ->
  (forall e, In e items -> text e ∉ seen) ->
  dedup_from seen items = items.
Proof.
  revert seen. induction items as [|item rest IH]; intros seen Hnd Hs; simpl;
    [reflexivity|].
  simpl in Hnd. apply NoDup_cons in Hnd as [Hx Hnd].
  rewrite bool_decide_eq_false_2 by (apply Hs; now left).
  f_equal. apply IH; [assumption|].
  intros e He. specialize (Hs e (or_intror He)).
  apply not_seen_add. split; [|assumption].
  intros Heq. apply Hx. rewrite <- Heq.
  apply list_elem_of_In, List.in_map. assumption.
Qed.

Lemma dedup_from_first (seen : gset string) (items : list entry) (e : entry) :
  In e (dedup_from seen items)
  <-> exists before after,
        items = (before ++ e :: after)%list
        /\ (text e ∉ seen) /\ ~ In (text e) (List.map text before).
Proof.
  revert seen. induction items as [|item rest IH]; intros seen; simpl.
  - split; [tauto|]. intros (b & a & H & _). now destruct b.
  - case_bool_decide as Hs.
    + rewrite IH. split.
      * intros (b & a & -> & Hn & Hb). exists (item :: b), a.
        repeat split; [assumption|]. simpl. intros [Heq|Hin]; [|tauto].
        rewrite Heq in Hs. contradiction.
      * intros (b & a & Heq & Hn & Hb). destruct b as [|x b]; simpl in Heq.
        -- injection Heq as -> ->. contradiction.
        -- injection Heq as -> ->. exists b, a. repeat split; [assumption|].
           intros Hin. apply Hb. now right.
    + simpl. rewrite IH. split.
      * intros [<-|(b & a & -> & Hn & Hb)].
        -- exists [], rest. repeat split; [assumption|]. simpl. tauto.
        -- apply not_seen_add in Hn as [Hne Hn].
           exists (item :: b), a. repeat split; [assumption|].
           simpl. intros [Heq|Hin]; [|tauto]. now symmetry in Heq.
      * intros (b & a & Heq & Hn & Hb). destruct b as [|x b]; simpl in Heq.
        -- injection Heq as -> ->. now left.
        -- injection Heq as -> ->. right. exists b, a.
           repeat split.
           ++ simpl in Hb. apply not_seen_add. split; [|assumption].
              intros Heq. apply Hb. left. now symmetry.
           ++ intros Hin. apply Hb. now right.
Qed.

End DedupFacts.

(** C9: removing duplicates from an outline that has gone through the removal
    once gives that outline back. *)
Theorem dedup_outline_idempotent (items : list entry) :
  dedup_outline (dedup_outline items) = dedup_outline items.
Proof.
  rewrite !dedup_outline_from. apply dedup_from_fixed.
  - apply dedup_from_NoDup.
  - intros e _. set_solver.
Qed.

Section OutlineFacts.

Lemma sound_outline_empty (ttl : string) (seen : gset string) :
  sound_outline ttl [] seen.
Proof. repeat split; simpl; [constructor | tauto | tauto]. Qed.

Lemma sound_outline_add (ttl : string) (outl : list entry) (seen : gset string)
      (e : entry) :
  sound_outline ttl outl seen ->
  text e ∉ seen -> text e ≠ ttl ->
  sound_outline ttl (outl ++ [e]) ({[ text e ]} ∪ seen).
Proof.
  intros (Hnd & Hsub & Httl) Hfresh Hne.
  unfold sound_outline. rewrite List.map_app. simpl. repeat split.
  - apply NoDup_app. repeat split; [assumption| |apply NoDup_singleton].
    intros t Ht Ht'. apply list_elem_of_In in Ht, Ht'.
    destruct Ht' as [<-|[]]. apply Hfresh. now apply Hsub.
  - intros t Ht. apply List.in_app_iff in Ht as [Ht|[<-|[]]].
    + specialize (Hsub t Ht). set_solver.
    + set_solver.
  - intros Ht. apply List.in_app_iff in Ht as [Ht|[Ht|[]]]; [tauto|congruence].
Qed.

Lemma eqb_false_neq (a b : string) : negb (String.eqb a b) = true -> a ≠ b.
Proof.
  intros H Heq. subst. now rewrite String.eqb_refl in H.
Qed.

Lemma native_element_sound (P : predicate) (hm : heading_map) (body : Q)
      (ttl : string) (page_num : nat) (st : loop_state) (el : element) :
  sound_outline ttl st.1 st.2 ->
  let st' := native_element P hm body ttl page_num st el in
  sound_outline ttl st'.1 st'.2.
Proof.
  intros Hs. unfold native_element. destruct el as [raw y lines|]; [|exact Hs].
  destruct (Text.len (Text.strip raw) =? 0)%nat; [exact Hs|]. simpl.
  case_bool_decide as Hseen; [exact Hs|].
  destruct (most_common1 _) as [dominant|]; [|exact Hs].
  destruct (heading_level_of _ _ _ _ _) as [lvl|]; [|exact Hs].
  destruct (negb (String.eqb (Text.strip raw) ttl)) eqn:Hne; [|exact Hs].
  simpl. apply (sound_outline_add ttl st.1 st.2
                  {| elevel := lvl; text := Text.strip raw; page_no := S page_num |});
    [assumption | assumption | now apply eqb_false_neq].
Qed.

Lemma native_page_sound (P : predicate) (hm : heading_map) (body : Q)
      (ttl : string) (page_num : nat) (p : page) (st : loop_state) :
  sound_outline ttl st.1 st.2 ->
  let st' := List.fold_left (native_element P hm body ttl page_num) p st in
  sound_outline ttl st'.1 st'.2.
Proof.
  revert st. induction p as [|el p IH]; intros st Hs; simpl; [exact Hs|].
  apply IH. now apply native_element_sound.
Qed.

Lemma native_pages_sound (P : predicate) (hm : heading_map) (body : Q)
      (ttl : string) (pages : list page) (page_num : nat) (st : loop_state) :
  sound_outline ttl st.1 st.2 ->
  let st' := native_pages P hm body ttl page_num pages st in
  sound_outline ttl st'.1 st'.2.
Proof.
  revert page_num st. induction pages as [|p ps IH]; intros page_num st Hs; simpl;
    [exact Hs|].
  apply IH. now apply native_page_sound.
Qed.

Lemma native_unique (P : predicate) (extracted : option (list page)) (r : record) :
  parse_with_pdfminer_using P extracted = Some r -> unique_outline r.
Proof.
  unfold parse_with_pdfminer_using. destruct extracted as [pages|]; [|discriminate].
  unfold native_body. destruct pages as [|first_page rest]; [discriminate|].
  destruct (_classify_heading_levels _) as [[|hm body]|]; simpl; try discriminate.
  destruct (_extract_title_candidates _) as [ttl|]; simpl; [|discriminate].
  intros [= <-]. unfold unique_outline. simpl.
  pose proof (native_pages_sound P hm body ttl (first_page :: rest) 0 ([], ∅)
                (sound_outline_empty ttl ∅)) as (Hnd & _ & Httl).
  split; assumption.
Qed.

Lemma ocr_block_sound (P : predicate) (page_num : nat) (ttl : string)
      (outl : list entry) (seen : gset string) (block : text_block) :
  sound_outline ttl outl seen ->
  exists outl' seen',
    ocr_block_step P page_num (ttl, outl, seen) block = (ttl, outl', seen')
    /\ sound_outline ttl outl' seen'.
Proof.
  intros Hs. unfold ocr_block_step.
  destruct (Text.len (btext block) =? 0)%nat; simpl; [eauto|].
  case_bool_decide as Hseen; simpl; [eauto|].
  destruct (negb (String.eqb (btext block) ttl)) eqn:Hne; simpl; [|eauto].
  destruct (P (btext block) None None); [|eauto].
  eexists _, _. split; [reflexivity|].
  apply (sound_outline_add ttl outl seen
           {| elevel := ocr_level (btext block); text := btext block;
              page_no := S page_num |});
    [assumption | assumption | now apply eqb_false_neq].
Qed.

Lemma ocr_blocks_sound (P : predicate) (page_num : nat) (ttl : string)
      (blocks : list text_block) (outl : list entry) (seen : gset string) :
  sound_outline ttl outl seen ->
  exists outl' seen',
    List.fold_left (ocr_block_step P page_num) blocks (ttl, outl, seen)
    = (ttl, outl', seen')
    /\ sound_outline ttl outl' seen'.
Proof.
  revert outl seen. induction blocks as [|b blocks IH]; intros outl seen Hs;
    cbn [List.fold_left].
  - eauto.
  - destruct (ocr_block_sound P page_num ttl outl seen b Hs)
      as (outl1 & seen1 & -> & Hs1).
    now apply IH.
Qed.

(** After the first page the title stays what it is. *)
Lemma ocr_page_later (P : predicate) (page_num : nat) (ttl : string)
      (outl : list entry) (seen : gset string) (detections : list detection) :
  sound_outline ttl outl seen ->
  exists outl' seen',
    ocr_page P (S page_num) (ttl, outl, seen) detections = (ttl, outl', seen')
    /\ sound_outline ttl outl' seen'.
Proof.
  intros Hs. unfold ocr_page. destruct detections as [|d ds]; [eauto|].
  change (ocr_title (S page_num) ttl ?b) with ttl.
  now apply ocr_blocks_sound.
Qed.

(** On the first page the outline is still empty when the title is chosen. *)
Lemma ocr_page_first (P : predicate) (ttl : string) (seen : gset string)
      (detections : list detection) :
  exists ttl' outl' seen',
    ocr_page P 0 (ttl, [], seen) detections = (ttl', outl', seen')
    /\ sound_outline ttl' outl' seen'.
Proof.
  unfold ocr_page. destruct detections as [|d ds].
  - eexists _, _, _. split; [reflexivity|]. apply sound_outline_empty.
  - match goal with
    | |- context [ocr_title 0 ttl ?b] => set (ttl' := ocr_title 0 ttl b)
    end.
    exists ttl'. apply ocr_blocks_sound, sound_outline_empty.
Qed.

Lemma ocr_pages_later (P : predicate) (images : list (list detection))
      (page_num : nat) (ttl : string) (outl : list entry) (seen : gset string) :
  sound_outline ttl outl seen ->
  exists outl' seen',
    ocr_pages P (S page_num) images (ttl, outl, seen) = (ttl, outl', seen')
    /\ sound_outline ttl outl' seen'.
Proof.
  revert page_num outl seen.
  induction images as [|dets rest IH]; intros page_num outl seen Hs;
    cbn [ocr_pages].
  - eauto.
  - destruct (ocr_page_later P page_num ttl outl seen dets Hs)
      as (outl1 & seen1 & -> & Hs1).
    now apply IH.
Qed.

Lemma ocr_unique (P : predicate) (scanned : option (list (list detection)))
      (r : record) :
  parse_with_ocr_using P scanned = Some r -> unique_outline r.
Proof.
  unfold parse_with_ocr_using. destruct scanned as [images|]; [|discriminate].
  assert (exists ttl outl seen,
             ocr_pages P 0 images ("", [], ∅) = (ttl, outl, seen)
             /\ sound_outline ttl outl seen) as (ttl & outl & seen & -> & Hs).
  { destruct images as [|dets rest]; cbn [ocr_pages].
    - eexists _, _, _. split; [reflexivity|]. apply sound_outline_empty.
    - destruct (ocr_page_first P "" ∅ dets) as (ttl1 & outl1 & seen1 & -> & Hs1).
      exists ttl1. now apply ocr_pages_later. }
  intros [= <-]. destruct Hs as (Hnd & _ & Httl). split; assumption.
Qed.

Lemma is_blank_spec (r : record) :
  is_blank r = true -> title r = "" /\ outline r = [].
Proof.
  unfold is_blank. destruct r as [t o]; simpl.
  destruct t; simpl; [|discriminate]. destruct o; [tauto|discriminate].
Qed.

Lemma orchestrate_unique (pdf_path : string) (result ocr : option record) :
  (forall r, result = Some r -> unique_outline r) ->
  (forall r, ocr = Some r -> unique_outline r) ->
  unique_outline (orchestrate pdf_path result ocr).
Proof.
  intros Hn Ho. unfold orchestrate, finish.
  assert (Hfb : unique_outline (final_fallback pdf_path)).
  { split; simpl; [constructor | tauto]. }
  destruct result as [r|]; destruct ocr as [o|]; simpl; eauto.
  - destruct (is_blank r) eqn:Hb; [|eauto].
    apply is_blank_spec in Hb as [Ht Hout]. rewrite Ht, Hout. simpl.
    destruct (Ho o eq_refl) as [Hnd Httl].
    split; simpl; rewrite dedup_outline_from.
    + apply dedup_from_NoDup.
    + intros Hin. apply Httl. apply List.in_map_iff in Hin as [e [He Hin]].
      apply dedup_from_In in Hin as [Hin _]. rewrite <- He. now apply List.in_map.
  - destruct (is_blank r); eauto.
Qed.

End OutlineFacts.

(** C7: the record of the native path, the record of the OCR path and the
    record [parse] returns (one of the two, their merge, or the fallback) have
    outlines whose texts are pairwise different and none of which is the
    title; and the duplicate removal of the merge keeps of each text the first
    entry in emission order. *)
Theorem parse_outline_unique (pdf_path : string) (extracted : option (list page))
        (scanned : option (list (list detection))) :
  unique_if_returned (_parse_with_pdfminer extracted)
  /\ unique_if_returned (_parse_with_ocr scanned)
  /\ unique_outline (parse pdf_path extracted scanned)
  /\ forall items e,
       In e (dedup_outline items)
       <-> exists before after,
             items = (before ++ e :: after)%list
             /\ ~ In (text e) (List.map text before).
Proof.
  pose proof (native_unique _is_potential_heading extracted) as Hn.
  pose proof (ocr_unique _is_potential_heading scanned) as Ho.
  fold (_parse_with_pdfminer extracted) in Hn.
  fold (_parse_with_ocr scanned) in Ho.
  split; [|split; [|split]].
  - unfold unique_if_returned. destruct (_parse_with_pdfminer extracted); auto.
  - unfold unique_if_returned. destruct (_parse_with_ocr scanned); auto.
  - now apply orchestrate_unique.
  - intros items e. rewrite dedup_outline_from, dedup_from_first.
    split; intros (b & a & H); exists b, a; [tauto|].
    destruct H as [-> Hb]. repeat split; [apply not_elem_of_empty|assumption].
Qed.

(** ** The native path and the orchestrator *)

Section NativeLoopFacts.
Variables (P : predicate) (hm : heading_map) (body : Q) (ttl : string).

Lemma native_element_keeps (page_num : nat) (st : loop_state) (el : element)
      (e : entry) :
  In e st.1 -> In e (native_element P hm body ttl page_num st el).1.
Proof.
  intros He. unfold native_element. destruct el as [raw y lines|]; [|exact He].
  destruct (_ || _); [exact He|].
  destruct (most_common1 _); [|exact He].
  destruct (heading_level_of _ _ _ _ _); [|exact He].
  destruct (negb _); [|exact He].
  simpl. apply List.in_app_iff. now left.
Qed.

Lemma native_page_keeps (page_num : nat) (p : page) (st : loop_state) (e : entry) :
  In e st.1 -> In e (List.fold_left (native_element P hm body ttl page_num) p st).1.
Proof.
  revert st. induction p as [|el p IH]; intros st He; simpl; [exact He|].
  apply IH. now apply native_element_keeps.
Qed.

Lemma native_pages_keeps (pages : list page) (page_num : nat) (st : loop_state)
      (e : entry) :
  In e st.1 -> In e (native_pages P hm body ttl page_num pages st).1.
Proof.
  revert page_num st. induction pages as [|p ps IH]; intros page_num st He; simpl;
    [exact He|].
  apply IH. now apply native_page_keeps.
Qed.

Lemma native_element_mapped (page_num : nat) (st : loop_state)
      (raw : string) (y : Q) (lines : list line_node) (dominant : Q) (lvl : level) :
  Text.strip raw ≠ "" ->
  Text.strip raw ∉ st.2 ->
  most_common1 (List.map round1 (List.map size (glyphs lines))) = Some dominant ->
  dict_get dominant hm = Some lvl ->
  Text.strip raw ≠ ttl ->
  native_element P hm body ttl page_num st (LTTextContainer raw y lines)
  = ((st.1 ++ [emitted lvl (Text.strip raw) page_num])%list,
     {[ Text.strip raw ]} ∪ st.2).
Proof.
  intros Hne Hseen Hdom Hmap Httl. unfold native_element.
  destruct (Text.strip raw) as [|a s] eqn:Hs; [congruence|].
  cbn [Text.len String.length Nat.eqb orb].
  rewrite bool_decide_eq_false_2 by assumption.
  rewrite Hdom. unfold heading_level_of. rewrite Hmap.
  destruct (String.eqb_spec (String a s) ttl) as [Heq|_]; [contradiction|].
  reflexivity.
Qed.

End NativeLoopFacts.

(** C10: a block with text, not seen before and different from the title,
    whose dominant rounded size has a level in the font mapping, is appended to
    the outline at that level, whatever the heading predicate is (it is not
    consulted); and the entry is still there when the rest of the page and the
    later pages have been read. *)
Theorem font_map_precedes_predicate (is_heading : predicate) (hm : heading_map)
        (body_font_size : Q) (ttl : string) (page_num : nat) (st : loop_state)
        (raw : string) (y : Q) (lines : list line_node)
        (dominant_size : Q) (lvl : level) :
  Text.strip raw ≠ "" ->
  Text.strip raw ∉ st.2 ->
  most_common1 (List.map round1 (List.map size (glyphs lines)))
  = Some dominant_size ->
  dict_get dominant_size hm = Some lvl ->
  Text.strip raw ≠ ttl ->
  native_element is_heading hm body_font_size ttl page_num st
                 (LTTextContainer raw y lines)
  = ((st.1 ++ [emitted lvl (Text.strip raw) page_num])%list,
     {[ Text.strip raw ]} ∪ st.2)
  /\ forall (rest_of_page : page) (later_pages : list page),
       In (emitted lvl (Text.strip raw) page_num)
          (native_pages is_heading hm body_font_size ttl (S page_num) later_pages
             (List.fold_left
                (native_element is_heading hm body_font_size ttl page_num)
                rest_of_page
                (native_element is_heading hm body_font_size ttl page_num st
                                (LTTextContainer raw y lines)))).1.
Proof.
  intros Hne Hseen Hdom Hmap Httl.
  pose proof (native_element_mapped is_heading hm body_font_size ttl page_num st
                raw y lines dominant_size lvl Hne Hseen Hdom Hmap Httl) as Hstep.
  split; [exact Hstep|].
  intros rest_of_page later_pages.
  apply native_pages_keeps, native_page_keeps.
  rewrite Hstep. simpl. apply List.in_app_iff. right. now left.
Qed.

Lemma font_map_precedes_predicate_witness :
  _is_potential_heading "www.example.com" (Some (18 # 1)%Q) (Some (12 # 1)%Q) = false
  /\ native_element _is_potential_heading [((180 # 10)%Q, H1)] (12 # 1)%Q "Annual Report"
                    0 ([], ∅) url_block
     = ([emitted H1 "www.example.com" 0], {[ "www.example.com" ]} ∪ ∅).
Proof.
  split; [vm_compute; reflexivity|].
  apply (font_map_precedes_predicate _is_potential_heading [((180 # 10)%Q, H1)]
           (12 # 1)%Q "Annual Report" 0 ([], ∅)
           "www.example.com" (700 # 1)%Q
           [Line [Glyph {| size := (18 # 1)%Q |}; Anno;
                  Glyph {| size := (18 # 1)%Q |}]]
           (180 # 10)%Q H1).
  - vm_compute. discriminate.
  - simpl. set_solver.
  - vm_compute. reflexivity.
  - vm_compute. reflexivity.
  - vm_compute. discriminate.
Defined.

Lemma native_fails_without_statistics (P : predicate) (pages : list page) :
  pages <> [] ->
  _extract_font_statistics pages = [] ->
  native_body P pages = Raise ValueError.
Proof.
  intros Hne Hfs. unfold native_body. destruct pages; [congruence|].
  now rewrite Hfs.
Qed.

(** C4, the code at the failing input: the statistics are empty, the
    classifier returns the bare empty dict, unpacking it into two names raises
    [ValueError], and the native path ends in failure. *)
Theorem empty_statistics_fail_native_path :
  _extract_font_statistics page_without_glyphs = []
  /\ _classify_heading_levels [] = Ok EmptyDict
  /\ native_body _is_potential_heading page_without_glyphs = Raise ValueError
  /\ _parse_with_pdfminer (Some page_without_glyphs) = None.
Proof. repeat split. Qed.

(** C5, the code at the failing input: a trimmed text of thirteen characters
    with [@] in its middle is taken for a heading, and the same text with [@] in
    front is rejected: the pattern is only tried at the start of the text. *)
Theorem at_sign_inside_text_not_excluded :
  Text.strip "Contact@x.com" = "Contact@x.com"
  /\ Text.len "Contact@x.com" = 13
  /\ Text.existsb_str (Ascii.eqb "@") "Contact@x.com" = true
  /\ _is_potential_heading "Contact@x.com" None None = true
  /\ _is_potential_heading "@Contact.x.com" None None = false.
Proof. vm_compute. repeat split. Qed.

(** C2, counterexample: the layout extraction raises, the scan has no page
    (the OCR path returns an empty title and outline), and the record returned
    has the empty title, not the file name. *)
Lemma filename_fallback_claim_fails :
  ~ filename_fallback_claim "input/report.pdf" None (Some []).
Proof.
  intros H. specialize (H eq_refl eq_refl). vm_compute in H. discriminate H.
Qed.

(** C2, amended: when the native path fails, the record of the OCR path is
    returned as it is, also when its title and outline are empty; the record
    made from the file name is returned when the OCR path fails too. *)
Theorem ocr_record_returned_as_is (pdf_path : string)
        (extracted : option (list page))
        (scanned : option (list (list detection))) :
  _parse_with_pdfminer extracted = None ->
  (forall ocr_result,
      _parse_with_ocr scanned = Some ocr_result ->
      parse pdf_path extracted scanned = ocr_result)
  /\ (_parse_with_ocr scanned = None ->
      parse pdf_path extracted scanned = final_fallback pdf_path).
Proof.
  intros Hn. unfold parse. rewrite Hn. split.
  - intros o ->. reflexivity.
  - intros ->. reflexivity.
Qed.

Lemma ocr_record_returned_as_is_witness :
  (forall ocr_result,
      _parse_with_ocr (Some []) = Some ocr_result ->
      parse "input/report.pdf" None (Some []) = ocr_result)
  /\ (_parse_with_ocr (Some []) = None ->
      parse "input/report.pdf" None (Some []) = final_fallback "input/report.pdf").
Proof.
  apply (ocr_record_returned_as_is "input/report.pdf" None (Some [])).
  reflexivity.
Defined.

(** ** Title selection *)

Section MaxFacts.
Context {A : Type} (k : A -> Q).

Let gt (x cur : A) : bool := Qlt_bool (k cur) (k x).

Lemma max_from_spec (l : list A) (cur : A) :
  let m := max_from gt cur l in
  (m = cur \/ In m l) /\ (k cur <= k m)%Q /\ forall x, In x l -> (k x <= k m)%Q.
Proof.
  revert cur. induction l as [|x l IH]; intros cur; simpl.
  - split; [now left|]. split; [apply Qle_refl | intros x []].
  - destruct (IH (if gt x cur then x else cur)) as (Hin & Hcur & Hall).
    unfold gt in *. destruct (Qlt_bool (k cur) (k x)) eqn:E.
    + apply Qlt_bool_iff in E.
      split; [destruct Hin as [Hin|Hin]; [right; left; now symmetry | tauto]|]. split.
      * eapply Qle_trans; [apply Qlt_le_weak, E | exact Hcur].
      * intros z [<-|Hz]; [exact Hcur | now apply Hall].
    + apply Qlt_bool_false in E. split; [tauto|]. split; [exact Hcur|].
      intros z [<-|Hz]; [|now apply Hall].
      eapply Qle_trans; [exact E | exact Hcur].
Qed.

End MaxFacts.

Lemma max_from_map {A B : Type} (f : A -> B) (gt : A -> A -> bool)
      (gt' : B -> B -> bool) (l : list A) (cur : A) :
  (forall x y, gt' (f x) (f y) = gt x y) ->
  max_from gt' (f cur) (List.map f l) = f (max_from gt cur l).
Proof.
  intros H. revert cur. induction l as [|x l IH]; intros cur; simpl; [reflexivity|].
  rewrite H. destruct (gt x cur); apply IH.
Qed.

Section TitleFacts.

Lemma max_of_largest (k : candidate -> Q) (c : candidate) (cs : list candidate) :
  exists m, max_of k (c :: cs) = Ok m /\ largest k (c :: cs) m.
Proof.
  unfold max_of, max_by. simpl bind.
  destruct (max_from_spec k cs c) as (Hin & Hcur & Hall).
  eexists. split; [reflexivity|]. split.
  - eexists. split; [|reflexivity]. simpl.
    destruct Hin as [Hin|Hin]; [left; now symmetry | now right].
  - intros x [<-|Hx]; [exact Hcur | now apply Hall].
Qed.

Lemma largest_unique (k : candidate -> Q) (cs : list candidate) (m m' : Q) :
  largest k cs m -> largest k cs m' -> (m == m')%Q.
Proof.
  intros [(c & Hc & Hm) Hle] [(c' & Hc' & Hm') Hle'].
  apply Qle_antisym.
  - rewrite <- Hm. now apply Hle'.
  - rewrite <- Hm'. now apply Hle.
Qed.

Lemma summed_score_spec (max_font max_y : Q) (c : candidate) :
  ~ (max_font == 0)%Q -> ~ (max_y == 0)%Q ->
  (summed_score max_font max_y c == spec_score max_font max_y c)%Q.
Proof.
  intros Hf Hy. unfold summed_score, spec_score, length_score.
  replace (Z.abs (Z.of_nat (word_count c) - 6) * 2)%Z
    with (2 * Z.abs (Z.of_nat (word_count c) - 6))%Z by lia.
  destruct (15 <? word_count c)%nat; field; tauto.
Qed.

Lemma summed_score_compat (m1 m1' m2 m2' : Q) (c : candidate) :
  (m1 == m1')%Q -> (m2 == m2')%Q ->
  (summed_score m1 m2 c == summed_score m1' m2' c)%Q.
Proof.
  intros H1 H2. unfold summed_score.
  destruct (15 <? word_count c)%nat; rewrite H1, H2; reflexivity.
Qed.

Lemma score_defined (cands : list candidate) (c : candidate) (max_font max_y : Q) :
  max_of font_size cands = Ok max_font ->
  max_of y_position cands = Ok max_y ->
  ~ (max_font == 0)%Q -> ~ (max_y == 0)%Q ->
  score cands c = Ok (Fin (summed_score max_font max_y c)).
Proof.
  intros Hf Hy Hfz Hyz. unfold score. rewrite Hf, Hy. simpl bind.
  rewrite (truediv_ok _ _ Hyz). simpl bind.
  unfold np_truediv. apply Qeq_bool_false in Hfz. rewrite Hfz.
  unfold summed_score. simpl.
  now destruct (15 <? word_count c)%nat.
Qed.

Lemma score_zero_y (cands : list candidate) (c : candidate) (max_font max_y : Q) :
  max_of font_size cands = Ok max_font ->
  max_of y_position cands = Ok max_y ->
  (max_y == 0)%Q ->
  score cands c = Raise ZeroDivisionError.
Proof.
  intros Hf Hy Hyz. unfold score. rewrite Hf, Hy. simpl bind.
  now rewrite (truediv_zero _ _ Hyz).
Qed.

Lemma score_all_defined (cands todo : list candidate) (max_font max_y : Q) :
  max_of font_size cands = Ok max_font ->
  max_of y_position cands = Ok max_y ->
  ~ (max_font == 0)%Q -> ~ (max_y == 0)%Q ->
  score_all cands todo
  = Ok (List.map (fun c => (c, Fin (summed_score max_font max_y c))) todo).
Proof.
  intros Hf Hy Hfz Hyz. induction todo as [|c rest IH]; simpl; [reflexivity|].
  rewrite (score_defined cands c max_font max_y Hf Hy Hfz Hyz). simpl bind.
  now rewrite IH.
Qed.

Lemma extract_title_of_candidates (els : list element) (c : candidate)
      (cs : list candidate) (max_font max_y : Q) :
  title_candidates els = c :: cs ->
  max_of font_size (c :: cs) = Ok max_font ->
  max_of y_position (c :: cs) = Ok max_y ->
  ~ (max_font == 0)%Q -> ~ (max_y == 0)%Q ->
  _extract_title_candidates els
  = Ok (ctext (max_from (fun x cur => Qlt_bool (summed_score max_font max_y cur)
                                               (summed_score max_font max_y x))
                        c cs)).
Proof.
  intros Hc Hf Hy Hfz Hyz. unfold _extract_title_candidates. rewrite Hc.
  rewrite (score_all_defined _ _ max_font max_y Hf Hy Hfz Hyz).
  cbn [bind List.map max_by].
  rewrite (max_from_map (fun c => (c, Fin (summed_score max_font max_y c)))
             (fun x cur => Qlt_bool (summed_score max_font max_y cur)
                                    (summed_score max_font max_y x)));
    [reflexivity|].
  intros x y. reflexivity.
Qed.

End TitleFacts.

(** C6: with no candidate the title is the empty string.  With candidates
    whose largest font size and largest vertical position are not zero, every
    candidate is given the score of the specification, and the title returned
    is the text of a candidate whose score no other candidate exceeds. *)
Theorem title_is_best_scored_candidate (els : list element) (max_font max_y : Q) :
  largest font_size (title_candidates els) max_font ->
  largest y_position (title_candidates els) max_y ->
  ~ (max_font == 0)%Q ->
  ~ (max_y == 0)%Q ->
  (forall c, In c (title_candidates els) ->
             exists s, score (title_candidates els) c = Ok (Fin s)
                       /\ (s == spec_score max_font max_y c)%Q)
  /\ (exists best,
         In best (title_candidates els)
         /\ _extract_title_candidates els = Ok (ctext best)
         /\ forall c, In c (title_candidates els) ->
                      (spec_score max_font max_y c
                       <= spec_score max_font max_y best)%Q)
  /\ (forall els', title_candidates els' = [] ->
                   _extract_title_candidates els' = Ok "").
Proof.
  intros Lf Ly Hfz Hyz.
  destruct (title_candidates els) as [|c cs] eqn:Hc.
  { destruct Lf as [(c & [] & _) _]. }
  destruct (max_of_largest font_size c cs) as (mf & Hmf & Lf').
  destruct (max_of_largest y_position c cs) as (my & Hmy & Ly').
  pose proof (largest_unique _ _ _ _ Lf' Lf) as Ef.
  pose proof (largest_unique _ _ _ _ Ly' Ly) as Ey.
  assert (Hfz' : ~ (mf == 0)%Q) by (now rewrite Ef).
  assert (Hyz' : ~ (my == 0)%Q) by (now rewrite Ey).
  assert (Hsc : forall x, (summed_score mf my x == spec_score max_font max_y x)%Q).
  { intros x. rewrite (summed_score_compat mf max_font my max_y x Ef Ey).
    now apply summed_score_spec. }
  split; [|split].
  - intros x _. eexists.
    split; [exact (score_defined (c :: cs) x mf my Hmf Hmy Hfz' Hyz')|]. apply Hsc.
  - rewrite (extract_title_of_candidates els c cs mf my Hc Hmf Hmy Hfz' Hyz').
    destruct (max_from_spec (summed_score mf my) cs c) as (Hin & Hcur & Hall).
    eexists. split; [|split; [reflexivity|]].
    + simpl. destruct Hin as [Hin|Hin]; [left; now symmetry | now right].
    + intros x Hx. rewrite <- !Hsc. destruct Hx as [<-|Hx]; [exact Hcur|now apply Hall].
  - intros els' He. unfold _extract_title_candidates. now rewrite He.
Qed.

(** With the largest vertical position at zero the scoring divides by zero
    and no title is returned. *)
Lemma title_undefined_at_zero_position (els : list element) (c : candidate)
      (cs : list candidate) :
  title_candidates els = c :: cs ->
  largest y_position (c :: cs) 0%Q ->
  _extract_title_candidates els = Raise ZeroDivisionError.
Proof.
  intros Hc Ly. unfold _extract_title_candidates. rewrite Hc.
  destruct (max_of_largest font_size c cs) as (mf & Hmf & _).
  destruct (max_of_largest y_position c cs) as (my & Hmy & Ly').
  pose proof (largest_unique _ _ _ _ Ly' Ly) as Ey.
  cbn [score_all].
  now rewrite (score_zero_y (c :: cs) c mf my Hmf Hmy Ey).
Qed.

Lemma title_is_best_scored_candidate_witness :
  _extract_title_candidates first_page_two_blocks = Ok "Annual Report 2024"
  /\ (forall c, In c (title_candidates first_page_two_blocks) ->
                exists s, score (title_candidates first_page_two_blocks) c = Ok (Fin s)
                          /\ (s == spec_score (24 # 1) (700 # 1) c)%Q)
  /\ (exists best,
         In best (title_candidates first_page_two_blocks)
         /\ _extract_title_candidates first_page_two_blocks = Ok (ctext best)
         /\ forall c, In c (title_candidates first_page_two_blocks) ->
                      (spec_score (24 # 1) (700 # 1) c
                       <= spec_score (24 # 1) (700 # 1) best)%Q)
  /\ (forall els', title_candidates els' = [] ->
                   _extract_title_candidates els' = Ok "").
Proof.
  split; [vm_compute; reflexivity|].
  apply (title_is_best_scored_candidate first_page_two_blocks (24 # 1)%Q (700 # 1)%Q).
  - split.
    + eexists. split; [left; reflexivity | vm_compute; reflexivity].
    + intros c [<-|[<-|[]]]; vm_compute; discriminate.
  - split.
    + eexists. split; [left; reflexivity | vm_compute; reflexivity].
    + intros c [<-|[<-|[]]]; vm_compute; discriminate.
  - vm_compute. discriminate.
  - vm_compute. discriminate.
Defined.

(** ** Output validation *)

Section ValidatorFacts.
Variable repr : pyval -> string.

Lemma existsb_eqb_In (s : string) (l : list string) :
  existsb (String.eqb s) l = true <-> In s l.
Proof.
  rewrite List.existsb_exists. split.
  - intros (x & Hx & E). apply String.eqb_eq in E. now subst.
  - intros H. exists s. split; [assumption | apply String.eqb_refl].
Qed.

Lemma len_zero (s : string) : (Text.len s =? 0)%nat = true <-> s = "".
Proof. destruct s; simpl; split; intros; congruence. Qed.

Lemma page_of_written (pg : pyval) (p : Z) : page_of pg = Ok p -> page_written pg p.
Proof.
  intros H. destruct pg as [| | |f| | |]; simpl in H;
    try (right; split; [exact I | exact H]);
    left; (split; [intros [] | congruence]).
Qed.

Lemma validate_item_outcome (item : pyval) (o : option valid_item) :
  validate_item repr item = Ok o -> item_outcome repr item o.
Proof.
  unfold validate_item.
  destruct item as [| | | | | |d];
    try (intros [= <-]; apply drop_not_a_dict; intros d; discriminate).
  destruct (lookup_key "level" d) as [lv|] eqn:Hlv;
    destruct (lookup_key "text" d) as [tx|] eqn:Htx;
    destruct (lookup_key "page" d) as [pg|] eqn:Hpg;
    try (intros [= <-];
         first [ apply (drop_missing_key repr d "level"); [simpl; tauto | assumption]
               | apply (drop_missing_key repr d "text"); [simpl; tauto | assumption]
               | apply (drop_missing_key repr d "page"); [simpl; tauto | assumption] ]).
  destruct (page_of pg) as [p|e] eqn:Hp; simpl bind; [|discriminate].
  cbn [vtext vlevel].
  destruct (Text.len (Text.strip (str repr tx)) =? 0)%nat eqn:Hlen; simpl negb.
  - cbn [andb]. cbv iota. intros [= <-]. apply len_zero in Hlen.
    apply (drop_empty_text repr d tx); [assumption|].
    rewrite <- Hlen. apply strip_trimmed.
  - cbn [andb].
    pose proof (existsb_eqb_In (str repr lv) ["H1"; "H2"; "H3"]) as Hiff.
    cbn [existsb] in Hiff.
    destruct (_ || _) eqn:Hex; cbv iota; intros [= <-].
    + apply (keep_item repr d lv tx pg (Text.strip (str repr tx)) p);
        try assumption.
      * now apply Hiff.
      * apply strip_trimmed.
      * intros E. apply len_zero in E. congruence.
      * now apply page_of_written.
    + apply (drop_invalid_level repr d lv); [assumption|].
      intros Hin. apply Hiff in Hin. discriminate.
Qed.

Lemma validate_outline_outcomes (items : list pyval) (vs : list valid_item) :
  validate_outline repr items = Ok vs ->
  exists outcomes,
    Forall2 (item_outcome repr) items outcomes /\ vs = kept outcomes.
Proof.
  revert vs. induction items as [|item rest IH]; intros vs; simpl.
  - intros [= <-]. exists []. split; [constructor | reflexivity].
  - destruct (validate_item repr item) as [o|] eqn:Ho; simpl bind; [|discriminate].
    destruct (validate_outline repr rest) as [vs'|] eqn:Hr; simpl bind; [|discriminate].
    intros [= <-]. destruct (IH vs' eq_refl) as (os & Hos & ->).
    exists (o :: os). split.
    + constructor; [now apply validate_item_outcome | assumption].
    + now destruct o.
Qed.

Lemma validate_json_output_outline (d : list (string * pyval)) (pdf_file : string)
      (out : valid_record) :
  validate_json_output repr (PDict d) pdf_file = Ok out ->
  validate_outline repr (outline_items d) = Ok (voutline out).
Proof.
  unfold validate_json_output. fold (outline_items d).
  destruct (validate_outline repr (outline_items d)) as [vs|]; simpl bind;
    [|discriminate].
  now intros [= <-].
Qed.

Lemma validate_outline_returns (items : list pyval) :
  Forall finite_page items -> exists vs, validate_outline repr items = Ok vs.
Proof.
  induction 1 as [|item rest Hf _ [vs IH]]; simpl; [eauto|].
  assert (exists o, validate_item repr item = Ok o) as [o ->].
  { unfold validate_item. destruct item as [| | | | | |d]; eauto.
    destruct (lookup_key "level" d); eauto.
    destruct (lookup_key "text" d); eauto.
    simpl in Hf. destruct (lookup_key "page" d) as [pg|]; eauto.
    destruct pg as [| | |[]| | |]; simpl bind; try contradiction;
      match goal with |- context [if ?c then _ else _] => destruct c end; eauto. }
  rewrite IH. simpl. eauto.
Qed.

End ValidatorFacts.

Lemma validate_json_output_returns (repr : pyval -> string)
      (d : list (string * pyval)) (pdf_file : string) :
  Forall finite_page (outline_items d) ->
  exists out, validate_json_output repr (PDict d) pdf_file = Ok out.
Proof.
  intros Hf. destruct (validate_outline_returns repr _ Hf) as [vs Hvs].
  unfold validate_json_output. fold (outline_items d). rewrite Hvs.
  simpl. eauto.
Qed.

(** C8: the validator returns unless a page is an infinite or undefined
    float, and then every item of the outline is either dropped or kept in
    sanitised form, in order.  An item is dropped when it is not a dict,
    misses one of the keys level, text and page, has a level other than H1, H2
    and H3, or has a text that is empty once trimmed; an item kept has its
    text trimmed and its page replaced by 1 unless the page is a number. *)
Theorem validator_sanitises_outline (repr : pyval -> string)
        (d : list (string * pyval)) (pdf_file : string) :
  (Forall finite_page (outline_items d) ->
   exists out, validate_json_output repr (PDict d) pdf_file = Ok out)
  /\ forall out,
       validate_json_output repr (PDict d) pdf_file = Ok out ->
       exists outcomes,
         Forall2 (item_outcome repr) (outline_items d) outcomes
         /\ voutline out = kept outcomes.
Proof.
  split; [apply validate_json_output_returns|].
  intros out H. apply validate_outline_outcomes.
  now apply validate_json_output_outline with pdf_file.
Qed.

Lemma validator_sanitises_outline_witness :
  validate_json_output (fun _ => "") (PDict untidy_record) "report.pdf"
  = Ok tidy_record
  /\ exists outcomes,
       Forall2 (item_outcome (fun _ => "")) (outline_items untidy_record) outcomes
       /\ voutline tidy_record = kept outcomes.
Proof.
  split; [vm_compute; reflexivity|].
  apply (proj2 (validator_sanitises_outline (fun _ => "") untidy_record
                                            "report.pdf")).
  vm_compute. reflexivity.
Defined.
